(** * dynamodb-atomic-counter: a shallow embedding of [atomic-counter.ts]

    The module keeps one process-wide DynamoDB client, builds an
    [UpdateItem] request ([increment]) or a [GetItem] request
    ([getLastValue]) for a counter, reads the count attribute of the reply,
    and reports the outcome through option callbacks and through a
    jQuery-style result object ([AtomicCounterPromiseImpl]).

    Conventions of the embedding:
    - a JavaScript [number] is modelled by the integer it denotes ([Z]),
      and its decimal text is that of JavaScript for the integers up to
      [Number.MAX_SAFE_INTEGER] in magnitude; strings are ASCII text;
    - a JavaScript object used as a record of named fields (request inputs,
      attribute maps) is a finite map of its own properties ([gmap string]);
    - a callback is a name together with its observable behaviour on a
      [this] and an argument: it returns, or it throws a value; every
      invocation is recorded in a trace of events;
    - the store is a parameter: a state and a function that executes a
      command against it and answers with a fulfilled or rejected reply. *)

From Stdlib Require Import ZArith String Ascii List DecimalString DecimalZ.
From stdpp Require Import base option gmap strings list fin_maps.

Local Open Scope Z_scope.
Local Open Scope string_scope.
Local Open Scope list_scope.

(** ** JavaScript values *)

(** The values that travel through callbacks, [throw] and promise
    settlement (TypeScript's [any]). *)
Inductive any : Type :=
| VUndefined
| VNum (n : Z)
| VStr (s : string)
| VError (message : string)      (* new Error(message) *)
| VObj (tag : string).           (* any other object *)

(** JavaScript truthiness, as used by [if (context)]. *)
Definition truthy (v : any) : bool :=
  match v with
  | VUndefined => false
  | VNum n => negb (n =? 0)%Z
  | VStr s => negb (String.eqb s "")
  | VError _ | VObj _ => true
  end.

(** [a || b] on an optional string: [undefined] and the empty string are
    falsy. *)
Definition or_string (a : option string) (b : string) : string :=
  match a with
  | Some s => if String.eqb s "" then b else s
  | None => b
  end.

(** [a || b] on an optional number: [undefined] and [0] are falsy. *)
Definition or_number (a : option Z) (b : Z) : Z :=
  match a with
  | Some n => if (n =? 0)%Z then b else n
  | None => b
  end.

(** ** Numbers and their decimal text *)

(** [Number.prototype.toString] on an integer: decimal digits, with a
    leading minus sign for a negative number. *)
Definition toString (n : Z) : string :=
  NilZero.string_of_int (Z.to_int n).

(** White space that [parseInt] skips at the start of its input. *)
Definition is_white_space (c : ascii) : bool :=
  let n := nat_of_ascii c in
  ((9 <=? n) && (n <=? 13) || (n =? 32))%nat.

Definition is_digit (c : ascii) : bool :=
  let n := nat_of_ascii c in
  ((48 <=? n) && (n <=? 57))%nat.

Fixpoint trim_start (s : string) : string :=
  match s with
  | String c r => if is_white_space c then trim_start r else s
  | EmptyString => EmptyString
  end.

(** The longest prefix made of decimal digits. *)
Fixpoint digit_prefix (s : string) : string :=
  match s with
  | String c r => if is_digit c then String c (digit_prefix r) else EmptyString
  | EmptyString => EmptyString
  end.

(** [parseInt(s, 10)]: skip leading white space, read an optional sign,
    then the longest run of decimal digits; [None] stands for [NaN], the
    result when there is no digit to read. *)
Definition parseInt (s : string) : option Z :=
  let s1 := trim_start s in
  let '(sign, s2) :=
    match s1 with
    | String "-" r => (-1, r)
    | String "+" r => (1, r)
    | _ => (1, s1)
    end in
  match digit_prefix s2 with
  | EmptyString => None
  | ds => (fun u => sign * Z.of_uint u) <$> NilEmpty.uint_of_string ds
  end.

(** ** DynamoDB data *)

(** The SDK's [AttributeValue] union; [S] and [N] both carry text. *)
Inductive AttributeValue : Type :=
| AV_S (s : string)
| AV_N (n : string)
| AV_BOOL (b : bool)
| AV_NULL.

(** [countValue.N]: the member is [undefined] on every other variant. *)
Definition N_member (a : AttributeValue) : option string :=
  match a with
  | AV_N n => Some n
  | _ => None
  end.

(** A field of a command input. *)
Inductive FieldValue : Type :=
| FString (s : string)
| FAttributes (m : gmap string AttributeValue)
| FNames (m : gmap string string)
| FBool (b : bool)
| FUndefined.

(** [UpdateItemCommandInput], [GetItemCommandInput] and the [dynamodb]
    option are objects read field by field. *)
Abbreviation CommandInput := (gmap string FieldValue).

Inductive Command : Type :=
| UpdateItemCommand (params : CommandInput)
| GetItemCommand (params : CommandInput).

Record UpdateItemCommandOutput : Type :=
  { Attributes : option (gmap string AttributeValue) }.

Record GetItemCommandOutput : Type :=
  { Item : option (gmap string AttributeValue) }.

(** How a promise settles: what [client.send(command)] answers, and what
    the promise of an operation hands to the result object. *)
Inductive Settlement (D : Type) : Type :=
| Fulfilment (data : D)
| Rejection (error : any).
Arguments Fulfilment {D} data.
Arguments Rejection {D} error.

(** A client is known by the configuration it was constructed with. *)
Inductive DynamoDBClient : Type :=
| new_DynamoDBClient (config : gmap string string).

(** ** Constants *)

Definition DEFAULT_TABLE_NAME : string := "AtomicCounters".
Definition DEFAULT_KEY_ATTRIBUTE : string := "id".
Definition DEFAULT_COUNT_ATTRIBUTE : string := "lastValue".
Definition DEFAULT_INCREMENT : Z := 1.

(** ** Callbacks, events and the effect monad *)

(** A callback, given its [this] and its argument, returns ([None]) or
    throws a value ([Some e]). *)
Record Callback : Type :=
  { cb_name : string;
    cb_body : option any -> any -> option any }.

(** One invocation of a callback: which one, with which [this], on which
    argument. *)
Inductive Event : Type :=
| Invoked (name : string) (this : option any) (arg : any).

Inductive Completion (A : Type) : Type :=
| Normal (a : A)
| Throw (e : any).
Arguments Normal {A} a.
Arguments Throw {A} e.

(** Computations over a mutable state [S] that append to the trace of
    events and may throw. *)
Definition M (S A : Type) : Type := S -> list Event -> S * list Event * Completion A.

Definition ret {S A} (a : A) : M S A := fun s t => (s, t, Normal a).

Definition bind {S A B} (m : M S A) (k : A -> M S B) : M S B :=
  fun s t =>
    match m s t with
    | (s', t', Normal a) => k a s' t'
    | (s', t', Throw e) => (s', t', Throw e)
    end.

Definition throw {S A} (e : any) : M S A := fun s t => (s, t, Throw e).

Definition try_catch {S A} (body : M S A) (handler : any -> M S A) : M S A :=
  fun s t =>
    match body s t with
    | (s', t', Throw e) => handler e s' t'
    | r => r
    end.

Definition get_state {S} : M S S := fun s t => (s, t, Normal s).
Definition modify {S} (f : S -> S) : M S unit := fun s t => (f s, t, Normal tt).
Definition emit {S} (e : Event) : M S unit := fun s t => (s, t ++ [e], Normal tt).

#[global] Instance M_ret {S} : MRet (M S) := fun A a => ret a.
#[global] Instance M_bind {S} : MBind (M S) := fun A B k m => bind m k.

(** Calling [cb] on [arg] with a given [this]. *)
Definition call {S} (cb : Callback) (this : option any) (arg : any) : M S unit :=
  emit (Invoked (cb_name cb) this arg) ;;
  match cb_body cb this arg return M S unit with
  | None => ret tt
  | Some e => throw e
  end.

(** [array.forEach(f)]: in order, stopping at the first exception. *)
Fixpoint forEach {S} (cbs : list Callback) (f : Callback -> M S unit) : M S unit :=
  match cbs with
  | [] => ret tt
  | cb :: rest => f cb ;; forEach rest f
  end.

(** [source.then(onFulfilled).catch(onRejected)]: an exception of
    [onFulfilled] is handed to [onRejected]; an exception of [onRejected]
    is the unhandled rejection of the chain. *)
Definition then_catch {S D} (source : Settlement D)
    (onFulfilled : D -> M S unit) (onRejected : any -> M S unit) : M S unit :=
  match source with
  | Fulfilment d => try_catch (onFulfilled d) onRejected
  | Rejection e => onRejected e
  end.


(** ** Options *)

Module Options.
Record t : Type :=
  { tableName : option string;
    keyAttribute : option string;
    countAttribute : option string;
    increment : option Z;
    success : option Callback;
    error : option Callback;
    complete : option Callback;
    context : option any;
    dynamodb : option CommandInput;
    client : option DynamoDBClient }.

(** The default argument [options = {}]. *)
Definition empty : t :=
  {| tableName := None; keyAttribute := None; countAttribute := None;
     increment := None; success := None; error := None; complete := None;
     context := None; dynamodb := None; client := None |}.
End Options.

Abbreviation AtomicCounterOptions := Options.t.

(** ** The shared client *)

(** The module-level variable [dynamoClient]; [None] is [null]. *)
Abbreviation ClientSlot := (option DynamoDBClient).

Definition getDynamoClient (clientOverride : option DynamoDBClient)
    (dynamoClient : ClientSlot) : DynamoDBClient * ClientSlot :=
  match clientOverride with
  | Some c => (c, dynamoClient)
  | None =>
      match dynamoClient with
      | Some c => (c, dynamoClient)
      | None => let c := new_DynamoDBClient ∅ in (c, Some c)
      end
  end.

Definition setClient (client : DynamoDBClient) (dynamoClient : ClientSlot) : ClientSlot :=
  Some client.

Definition getClient (dynamoClient : ClientSlot) : DynamoDBClient * ClientSlot :=
  getDynamoClient None dynamoClient.

(** ** Option callbacks *)

Definition executeCallback {S} (callback : option Callback) (context : option any)
    (arg : any) : M S unit :=
  match callback with
  | Some cb =>
      match context with
      | Some ctx => if truthy ctx then call cb (Some ctx) arg else call cb None arg
      | None => call cb None arg
      end
  | None => mret tt
  end.

(** ** The promise built by [new Promise<number>(...)] *)

Inductive PromiseState : Type :=
| Pending
| Fulfilled (value : Z)
| Rejected (reason : any).

(** [resolve] and [reject] act on a pending promise only. *)
Definition resolve (v : Z) : M PromiseState unit :=
  modify (fun p => match p with Pending => Fulfilled v | _ => p end).

Definition reject (e : any) : M PromiseState unit :=
  modify (fun p => match p with Pending => Rejected e | _ => p end).

(** ** increment *)

(** The [params] object of [increment]; the spread of [options.dynamodb]
    comes last, so its fields replace the derived ones. *)
Definition increment_derived (counterId : string) (options : AtomicCounterOptions)
    : CommandInput :=
  let keyAttribute := or_string (Options.keyAttribute options) DEFAULT_KEY_ATTRIBUTE in
  let countAttribute := or_string (Options.countAttribute options) DEFAULT_COUNT_ATTRIBUTE in
  let incrementValue := or_number (Options.increment options) DEFAULT_INCREMENT in
  {[ "TableName" := FString (or_string (Options.tableName options) DEFAULT_TABLE_NAME);
     "Key" := FAttributes {[ keyAttribute := AV_S counterId ]};
     "UpdateExpression" := FString ("ADD " ++ countAttribute ++ " :increment")%string;
     "ExpressionAttributeValues" :=
       FAttributes {[ ":increment" := AV_N (toString incrementValue) ]};
     "ReturnValues" := FString "UPDATED_NEW" ]}.

Definition increment_params (counterId : string) (options : AtomicCounterOptions)
    : CommandInput :=
  default ∅ (Options.dynamodb options) ∪ increment_derived counterId options.

(** The [.then] handler of [increment]. *)
Definition increment_onFulfilled (options : AtomicCounterOptions)
    (countAttribute : string) (data : UpdateItemCommandOutput) : M PromiseState unit :=
  try_catch
    (match Attributes data ≫= (fun attrs => attrs !! countAttribute) with
     | None => throw (VError "No count attribute returned from DynamoDB")
     | Some countValue =>
         match N_member countValue with
         | None | Some EmptyString => throw (VError "Count attribute is not a number")
         | Some n =>
             match parseInt n with
             | None => throw (VError ("Could not parse incremented value (" ++ n ++ ")")%string)
             | Some newCountValue =>
                 executeCallback (Options.success options) (Options.context options)
                   (VNum newCountValue) ;;
                 executeCallback (Options.complete options) (Options.context options)
                   (VNum newCountValue) ;;
                 resolve newCountValue
             end
         end
     end)
    (fun error =>
       executeCallback (Options.error options) (Options.context options) error ;;
       executeCallback (Options.complete options) (Options.context options) error ;;
       reject error).

(** The [.catch] handler, shared in shape by both operations. *)
Definition onRejected (options : AtomicCounterOptions) (error : any) : M PromiseState unit :=
  executeCallback (Options.error options) (Options.context options) error ;;
  executeCallback (Options.complete options) (Options.context options) error ;;
  reject error.

(** ** getLastValue *)

Definition getLastValue_derived (counterId : string) (options : AtomicCounterOptions)
    : CommandInput :=
  let keyAttribute := or_string (Options.keyAttribute options) DEFAULT_KEY_ATTRIBUTE in
  let countAttribute := or_string (Options.countAttribute options) DEFAULT_COUNT_ATTRIBUTE in
  {[ "TableName" := FString (or_string (Options.tableName options) DEFAULT_TABLE_NAME);
     "Key" := FAttributes {[ keyAttribute := AV_S counterId ]};
     "ProjectionExpression" := FString countAttribute ]}.

Definition getLastValue_params (counterId : string) (options : AtomicCounterOptions)
    : CommandInput :=
  default ∅ (Options.dynamodb options) ∪ getLastValue_derived counterId options.

(** The [.then] handler of [getLastValue]. *)
Definition getLastValue_onFulfilled (options : AtomicCounterOptions)
    (countAttribute : string) (data : GetItemCommandOutput) : M PromiseState unit :=
  try_catch
    (lastValue ←
       match Item data ≫= (fun item => item !! countAttribute) with
       | None => mret 0
       | Some countValue =>
           match N_member countValue with
           | None | Some EmptyString => throw (VError "Count attribute is not a number")
           | Some n =>
               match parseInt n with
               | None => throw (VError ("Could not parse count value (" ++ n ++ ")")%string)
               | Some lastValue => mret lastValue
               end
           end
       end ;
     executeCallback (Options.success options) (Options.context options) (VNum lastValue) ;;
     executeCallback (Options.complete options) (Options.context options) (VNum lastValue) ;;
     resolve lastValue)
    (fun error =>
       executeCallback (Options.error options) (Options.context options) error ;;
       executeCallback (Options.complete options) (Options.context options) error ;;
       reject error).

(** ** The operations against a store *)

(** What [client.send] does with a command of each kind: an answer and
    the store after it. *)
Abbreviation SendUpdateItem Store :=
  (DynamoDBClient -> CommandInput -> Store -> Settlement UpdateItemCommandOutput * Store).
Abbreviation SendGetItem Store :=
  (DynamoDBClient -> CommandInput -> Store -> Settlement GetItemCommandOutput * Store).

(** What one call leaves behind: the client it used, the command it sent,
    the callbacks it invoked, the state its promise ends in, and the
    exception, if any, that escaped the [.catch] handler. *)
Record Invocation : Type :=
  { used_client : DynamoDBClient;
    sent : Command;
    trace : list Event;
    promise : PromiseState;
    unhandled : option any }.

Definition conclude (client : DynamoDBClient) (command : Command)
    (run : M PromiseState unit) : Invocation :=
  match run Pending [] with
  | (p, t, Normal _) =>
      {| used_client := client; sent := command; trace := t; promise := p;
         unhandled := None |}
  | (p, t, Throw e) =>
      {| used_client := client; sent := command; trace := t; promise := p;
         unhandled := Some e |}
  end.

Section Operations.

(** The service behind [client.send]: its state and what each command
    does to it. *)
Context {Store : Type}.
Variable send_UpdateItem : SendUpdateItem Store.
Variable send_GetItem : SendGetItem Store.

(** The process: the module variable and the store it talks to. *)
Record World : Type :=
  { dynamoClient : ClientSlot;
    store : Store }.

Definition increment (counterId : string) (options : AtomicCounterOptions)
    (w : World) : World * Invocation :=
  let '(client, slot) := getDynamoClient (Options.client options) (dynamoClient w) in
  let countAttribute := or_string (Options.countAttribute options) DEFAULT_COUNT_ATTRIBUTE in
  let params := increment_params counterId options in
  let '(reply, store') := send_UpdateItem client params (store w) in
  ({| dynamoClient := slot; store := store' |},
   conclude client (UpdateItemCommand params)
     (then_catch reply (increment_onFulfilled options countAttribute)
        (onRejected options))).

Definition getLastValue (counterId : string) (options : AtomicCounterOptions)
    (w : World) : World * Invocation :=
  let '(client, slot) := getDynamoClient (Options.client options) (dynamoClient w) in
  let countAttribute := or_string (Options.countAttribute options) DEFAULT_COUNT_ATTRIBUTE in
  let params := getLastValue_params counterId options in
  let '(reply, store') := send_GetItem client params (store w) in
  ({| dynamoClient := slot; store := store' |},
   conclude client (GetItemCommand params)
     (then_catch reply (getLastValue_onFulfilled options countAttribute)
        (onRejected options))).

End Operations.

Arguments World : clear implicits.

(** ** The result object *)

Module AtomicCounterPromiseImpl.

Record t : Type :=
  { doneCallbacks : list Callback;
    failCallbacks : list Callback;
    alwaysCallbacks : list Callback;
    resolved : bool;
    rejected : bool;
    value : any }.

(** The field initialisers of the class. *)
Definition init : t :=
  {| doneCallbacks := []; failCallbacks := []; alwaysCallbacks := [];
     resolved := false; rejected := false; value := VUndefined |}.

Definition set_resolved (v : any) (self : t) : t :=
  {| doneCallbacks := doneCallbacks self; failCallbacks := failCallbacks self;
     alwaysCallbacks := alwaysCallbacks self;
     resolved := true; rejected := rejected self; value := v |}.

Definition set_rejected (e : any) (self : t) : t :=
  {| doneCallbacks := doneCallbacks self; failCallbacks := failCallbacks self;
     alwaysCallbacks := alwaysCallbacks self;
     resolved := resolved self; rejected := true; value := e |}.

Definition push_done (cb : Callback) (self : t) : t :=
  {| doneCallbacks := doneCallbacks self ++ [cb]; failCallbacks := failCallbacks self;
     alwaysCallbacks := alwaysCallbacks self;
     resolved := resolved self; rejected := rejected self; value := value self |}.

Definition push_fail (cb : Callback) (self : t) : t :=
  {| doneCallbacks := doneCallbacks self; failCallbacks := failCallbacks self ++ [cb];
     alwaysCallbacks := alwaysCallbacks self;
     resolved := resolved self; rejected := rejected self; value := value self |}.

Definition push_always (cb : Callback) (self : t) : t :=
  {| doneCallbacks := doneCallbacks self; failCallbacks := failCallbacks self;
     alwaysCallbacks := alwaysCallbacks self ++ [cb];
     resolved := resolved self; rejected := rejected self; value := value self |}.

(** The two handlers the constructor attaches to the wrapped promise. *)
Definition onFulfilled (v : Z) : M t unit :=
  modify (set_resolved (VNum v)) ;;
  self ← get_state ;
  forEach (doneCallbacks self) (fun cb => call cb None (VNum v)) ;;
  forEach (alwaysCallbacks self) (fun cb => call cb None (VNum v)).

Definition onRejected (e : any) : M t unit :=
  modify (set_rejected e) ;;
  self ← get_state ;
  forEach (failCallbacks self) (fun cb => call cb None e) ;;
  forEach (alwaysCallbacks self) (fun cb => call cb None e).

(** The reaction of [this.promise.then(...).catch(...)] once the wrapped
    promise has settled; a promise that stays pending never reacts. *)
Definition settle (p : PromiseState) : M t unit :=
  match p with
  | Pending => mret tt
  | Fulfilled v => then_catch (Fulfilment v) onFulfilled onRejected
  | Rejected e => then_catch (Rejection (D := Z) e) onFulfilled onRejected
  end.

Definition done (callback : Callback) : M t unit :=
  self ← get_state ;
  if resolved self then call callback None (value self)
  else if negb (rejected self) then modify (push_done callback)
  else mret tt.

Definition fail (callback : Callback) : M t unit :=
  self ← get_state ;
  if rejected self then call callback None (value self)
  else if negb (resolved self) then modify (push_fail callback)
  else mret tt.

Definition always (callback : Callback) : M t unit :=
  self ← get_state ;
  if resolved self || rejected self then call callback None (value self)
  else modify (push_always callback).

End AtomicCounterPromiseImpl.

(** * Vocabulary of the statements *)

(** The [this] a callback is invoked with. *)
Definition this_of (context : option any) : option any :=
  match context with
  | Some ctx => if truthy ctx then Some ctx else None
  | None => None
  end.

(** The event of handing [arg] to an optional callback. *)
Definition fired (callback : option Callback) (context : option any) (arg : any)
    : list Event :=
  match callback with
  | Some cb => [Invoked (cb_name cb) (this_of context) arg]
  | None => []
  end.

Definition returns (callback : option Callback) : Prop :=
  forall cb, callback = Some cb -> forall this arg, cb_body cb this arg = None.

Definition callbacks_return (options : AtomicCounterOptions) : Prop :=
  returns (Options.success options) /\
  returns (Options.error options) /\
  returns (Options.complete options).

(** The number a count attribute holds: the [N] member read by
    [parseInt]; [None] when the member is missing, empty or does not start
    with an integer. *)
Definition numeric_value (a : AttributeValue) : option Z :=
  match a with
  | AV_N n => parseInt n
  | _ => None
  end.

(** The errors the operations raise themselves, on a reply they cannot
    use. *)
Inductive MalformedResponse : any -> Prop :=
| NoCountAttribute :
    MalformedResponse (VError "No count attribute returned from DynamoDB")
| CountNotANumber :
    MalformedResponse (VError "Count attribute is not a number")
| IncrementedValueNotParsed (n : string) :
    MalformedResponse (VError ("Could not parse incremented value (" ++ n ++ ")")%string)
| CountValueNotParsed (n : string) :
    MalformedResponse (VError ("Could not parse count value (" ++ n ++ ")")%string).

(** How an outcome reaches the option callbacks and the promise. *)
Definition delivered (options : AtomicCounterOptions) (outcome : Z + any)
    : PromiseState * list Event :=
  match outcome with
  | inl v =>
      (Fulfilled v,
       fired (Options.success options) (Options.context options) (VNum v)
         ++ fired (Options.complete options) (Options.context options) (VNum v))
  | inr e =>
      (Rejected e,
       fired (Options.error options) (Options.context options) e
         ++ fired (Options.complete options) (Options.context options) e)
  end.

(** The input a command carries. *)
Definition command_input (c : Command) : CommandInput :=
  match c with
  | UpdateItemCommand params | GetItemCommand params => params
  end.

(** The raw request fields the caller supplied, none when the [dynamodb]
    option is absent. *)
Definition raw_fields (options : AtomicCounterOptions) : CommandInput :=
  default ∅ (Options.dynamodb options).


(** The three states of a result object, read off its two flags. *)
Definition is_pending (self : AtomicCounterPromiseImpl.t) : Prop :=
  AtomicCounterPromiseImpl.resolved self = false /\
  AtomicCounterPromiseImpl.rejected self = false.

Definition is_resolved (self : AtomicCounterPromiseImpl.t) (v : any) : Prop :=
  AtomicCounterPromiseImpl.resolved self = true /\
  AtomicCounterPromiseImpl.rejected self = false /\
  AtomicCounterPromiseImpl.value self = v.

Definition is_rejected (self : AtomicCounterPromiseImpl.t) (e : any) : Prop :=
  AtomicCounterPromiseImpl.rejected self = true /\
  AtomicCounterPromiseImpl.resolved self = false /\
  AtomicCounterPromiseImpl.value self = e.

(** One invocation of each observer of a queue, in queue order. *)
Definition delivery (queue : list Callback) (arg : any) : list Event :=
  map (fun cb => Invoked (cb_name cb) None arg) queue.

Definition all_return (queue : list Callback) : Prop :=
  Forall (fun cb => forall this arg, cb_body cb this arg = None) queue.

(** What a call of [cb] on [arg] ends with. *)
Definition completion_of (cb : Callback) (this : option any) (arg : any)
    : Completion unit :=
  match cb_body cb this arg with
  | None => Normal tt
  | Some e => Throw e
  end.

(** * Sample inputs *)

Definition returning (name : string) : Callback :=
  {| cb_name := name; cb_body := fun _ _ => None |}.

Definition throwing (name : string) (e : any) : Callback :=
  {| cb_name := name; cb_body := fun _ _ => Some e |}.

(** A callback that throws [e] when handed a number and returns
    otherwise. *)
Definition throwing_on_numbers (name : string) (e : any) : Callback :=
  {| cb_name := name;
     cb_body := fun _ arg => match arg with VNum _ => Some e | _ => None end |}.

(** Options that supply the three callbacks and nothing else. *)
Definition with_callbacks (success error complete : Callback) : AtomicCounterOptions :=
  {| Options.tableName := None; Options.keyAttribute := None;
     Options.countAttribute := None; Options.increment := None;
     Options.success := Some success; Options.error := Some error;
     Options.complete := Some complete;
     Options.context := None; Options.dynamodb := None; Options.client := None |}.

(** Options that supply an increment amount and nothing else. *)
Definition with_increment (amount : Z) : AtomicCounterOptions :=
  {| Options.tableName := None; Options.keyAttribute := None;
     Options.countAttribute := None; Options.increment := Some amount;
     Options.success := None; Options.error := None; Options.complete := None;
     Options.context := None; Options.dynamodb := None; Options.client := None |}.

(** Options that supply raw request fields and nothing else. *)
Definition with_dynamodb (raw : CommandInput) : AtomicCounterOptions :=
  {| Options.tableName := None; Options.keyAttribute := None;
     Options.countAttribute := None; Options.increment := None;
     Options.success := None; Options.error := None; Options.complete := None;
     Options.context := None; Options.dynamodb := Some raw; Options.client := None |}.

(** A service that answers every command with one fixed reply; its state
    counts the updates it has executed. *)
Definition scripted_UpdateItem (reply : Settlement UpdateItemCommandOutput)
    : SendUpdateItem nat :=
  fun _ _ updates => (reply, S updates).

Definition scripted_GetItem (reply : Settlement GetItemCommandOutput)
    : SendGetItem nat :=
  fun _ _ updates => (reply, updates).

(** A process that has not created its client yet. *)
Definition fresh_world : World nat :=
  {| dynamoClient := None; store := 0%nat |}.

(** A reply whose count attribute, under the default name, is [a]. *)
Definition updated (a : AttributeValue) : Settlement UpdateItemCommandOutput :=
  Fulfilment {| Attributes := Some {[ DEFAULT_COUNT_ATTRIBUTE := a ]} |}.

Definition found (a : AttributeValue) : Settlement GetItemCommandOutput :=
  Fulfilment {| Item := Some {[ DEFAULT_COUNT_ATTRIBUTE := a ]} |}.

(** An in-memory stand-in for the service, to run the operations end to
    end: items by table, key attribute and key; [UpdateItem] understands
    the one update expression [increment] writes, [GetItem] a projection
    on one attribute. *)
Module MemoryTable.

(** The items of every table, by table name, key attribute and key. *)
Abbreviation t := (gmap (string * string * string) (gmap string AttributeValue)).

Fixpoint strip_prefix (prefix s : string) : option string :=
  match prefix, s with
  | EmptyString, _ => Some s
  | String a p, String b r => if Ascii.eqb a b then strip_prefix p r else None
  | String _ _, EmptyString => None
  end.

(** The text before the first space, and the text from that space on. *)
Fixpoint first_word (s : string) : string * string :=
  match s with
  | EmptyString => (EmptyString, EmptyString)
  | String c r =>
      if Ascii.eqb c " " then (EmptyString, s)
      else let '(w, rest) := first_word r in (String c w, rest)
  end.

(** The attribute of an update expression [ADD <attribute> :increment]. *)
Definition added_attribute (expression : string) : option string :=
  rest ← strip_prefix "ADD " expression ;
  let '(attribute, tail) := first_word rest in
  if String.eqb tail " :increment" then Some attribute else None.

Definition field_string (params : CommandInput) (name : string) : option string :=
  match params !! name with
  | Some (FString s) => Some s
  | _ => None
  end.

Definition field_attributes (params : CommandInput) (name : string)
    : option (gmap string AttributeValue) :=
  match params !! name with
  | Some (FAttributes m) => Some m
  | _ => None
  end.

(** The item a request addresses. *)
Definition address (params : CommandInput) : option (string * string * string) :=
  table ← field_string params "TableName" ;
  key ← field_attributes params "Key" ;
  match map_to_list key with
  | [(keyAttribute, AV_S id)] => Some (table, keyAttribute, id)
  | _ => None
  end.

Definition invalid {D} : Settlement D := Rejection (VObj "ValidationException").

Definition UpdateItem : SendUpdateItem t :=
  fun _ params table =>
    match
      (at_ ← address params ;
       attribute ← field_string params "UpdateExpression" ≫= added_attribute ;
       values ← field_attributes params "ExpressionAttributeValues" ;
       amount ← values !! ":increment" ≫= numeric_value ;
       let item := default ∅ (table !! at_) in
       old ← match item !! attribute with
             | Some a => numeric_value a
             | None => Some 0
             end ;
       Some (at_, attribute, item, old + amount))
    with
    | Some (at_, attribute, item, count) =>
        let updated := AV_N (toString count) in
        (Fulfilment {| Attributes := Some {[ attribute := updated ]} |},
         <[ at_ := <[ attribute := updated ]> (<[ at_.1.2 := AV_S at_.2 ]> item) ]> table)
    | None => (invalid, table)
    end.

Definition GetItem : SendGetItem t :=
  fun _ params table =>
    match
      (at_ ← address params ;
       attribute ← field_string params "ProjectionExpression" ;
       Some (at_, attribute))
    with
    | Some (at_, attribute) =>
        (Fulfilment
           {| Item := (fun item => filter (fun kv => kv.1 = attribute) item) <$> table !! at_ |},
         table)
    | None => (invalid, table)
    end.

End MemoryTable.

(** A process with no client yet and an empty table. *)
Definition empty_world : World MemoryTable.t :=
  {| dynamoClient := None; store := ∅ |}.

(** * Vocabulary of the further properties *)

(** The callbacks an options object supplies. *)
Definition supplied (options : AtomicCounterOptions) : list Callback :=
  option_list (Options.success options)
    ++ option_list (Options.error options)
    ++ option_list (Options.complete options).

(** An invocation of one of the supplied callbacks, with the context of
    the options as [this]. *)
Definition from_options (options : AtomicCounterOptions) (ev : Event) : Prop :=
  exists cb arg,
    cb ∈ supplied options /\
    ev = Invoked (cb_name cb) (this_of (Options.context options)) arg.

(** A computation all of whose events satisfy [P]. *)
Definition confined {S A} (P : Event -> Prop) (m : M S A) : Prop :=
  forall s t, Forall P t -> Forall P (m s t).1.2.

(** A promise that has not been fulfilled. *)
Definition not_fulfilled (p : PromiseState) : Prop :=
  forall v, p <> Fulfilled v.

(** An object that has settled, whatever its flags say otherwise. *)
Definition is_settled (self : AtomicCounterPromiseImpl.t) : Prop :=
  AtomicCounterPromiseImpl.resolved self || AtomicCounterPromiseImpl.rejected self = true.

(** * Properties *)

(** ** Reading the monad *)

Lemma bind_run {S A B} (m : M S A) (k : A -> M S B) s t :
  (m ≫= k) s t =
  match m s t with
  | (s', t', Normal a) => k a s' t'
  | (s', t', Throw e) => (s', t', Throw e)
  end.
Proof. reflexivity. Qed.

Lemma bind_normal {S A B} (m : M S A) (k : A -> M S B) s t s' t' a :
  m s t = (s', t', Normal a) -> (m ≫= k) s t = k a s' t'.
Proof. intros H. rewrite bind_run, H. reflexivity. Qed.

(** ** Callbacks that return *)

Lemma call_run {S} cb this arg (s : S) t :
  call cb this arg s t =
  (s, t ++ [Invoked (cb_name cb) this arg], completion_of cb this arg).
Proof.
  unfold call, completion_of. rewrite bind_run. cbn.
  destruct (cb_body cb this arg); reflexivity.
Qed.

Lemma executeCallback_run {S} callback context arg (s : S) t :
  executeCallback callback context arg s t =
  (s, t ++ fired callback context arg,
   match callback with
   | Some cb => completion_of cb (this_of context) arg
   | None => Normal tt
   end).
Proof.
  destruct callback as [cb|]; cbn.
  - destruct context as [ctx|]; cbn; [destruct (truthy ctx)|]; apply call_run.
  - rewrite app_nil_r. reflexivity.
Qed.

Lemma executeCallback_returns {S} callback context arg (s : S) t :
  returns callback ->
  executeCallback callback context arg s t =
  (s, t ++ fired callback context arg, Normal tt).
Proof.
  intros Hret. rewrite executeCallback_run. destruct callback as [cb|]; [|reflexivity].
  unfold completion_of. rewrite (Hret cb eq_refl). reflexivity.
Qed.

(** The success path of both operations: [success], then [complete], then
    [resolve]. *)
Lemma success_path options v t :
  callbacks_return options ->
  (executeCallback (Options.success options) (Options.context options) (VNum v) ;;
   executeCallback (Options.complete options) (Options.context options) (VNum v) ;;
   resolve v) Pending t =
  (Fulfilled v,
   t ++ fired (Options.success options) (Options.context options) (VNum v)
     ++ fired (Options.complete options) (Options.context options) (VNum v),
   Normal tt).
Proof.
  intros (Hs & _ & Hc).
  erewrite bind_normal by (apply executeCallback_returns; exact Hs).
  erewrite bind_normal by (apply executeCallback_returns; exact Hc).
  rewrite <- app_assoc. reflexivity.
Qed.

(** The failure path: [error], then [complete], then [reject]. *)
Lemma failure_path options e t :
  callbacks_return options ->
  onRejected options e Pending t =
  (Rejected e,
   t ++ fired (Options.error options) (Options.context options) e
     ++ fired (Options.complete options) (Options.context options) e,
   Normal tt).
Proof.
  intros (_ & He & Hc). unfold onRejected.
  erewrite bind_normal by (apply executeCallback_returns; exact He).
  erewrite bind_normal by (apply executeCallback_returns; exact Hc).
  rewrite <- app_assoc. reflexivity.
Qed.

Lemma returning_returns name : returns (Some (returning name)).
Proof. intros cb [= <-] arg. reflexivity. Qed.

Lemma with_callbacks_return s e c :
  callbacks_return (with_callbacks (returning s) (returning e) (returning c)).
Proof. repeat split; apply returning_returns. Qed.

(** ** Decimal text of a number *)

Lemma digit_prefix_string_of_uint d :
  digit_prefix (NilEmpty.string_of_uint d) = NilEmpty.string_of_uint d.
Proof. induction d; cbn; try rewrite IHd; reflexivity. Qed.

Lemma read_string_of_uint sign d :
  d <> Decimal.Nil ->
  match digit_prefix (NilEmpty.string_of_uint d) with
  | EmptyString => None
  | ds => (fun u => sign * Z.of_uint u) <$> NilEmpty.uint_of_string ds
  end = Some (sign * Z.of_uint d).
Proof.
  intros Hd. rewrite digit_prefix_string_of_uint.
  destruct (NilEmpty.string_of_uint d) eqn:E.
  - destruct d; try discriminate. congruence.
  - rewrite <- E, NilEmpty.usu. reflexivity.
Qed.

Lemma parseInt_digit_first c r :
  is_digit c = true ->
  parseInt (String c r) =
  match digit_prefix (String c r) with
  | EmptyString => None
  | ds => (fun u => 1 * Z.of_uint u) <$> NilEmpty.uint_of_string ds
  end.
Proof.
  destruct c as [[] [] [] [] [] [] [] []]; intros H; try discriminate H; reflexivity.
Qed.

Lemma string_of_uint_digit_first d :
  d <> Decimal.Nil ->
  exists c r, NilEmpty.string_of_uint d = String c r /\ is_digit c = true.
Proof. destruct d; try congruence; intros _; cbn; eauto. Qed.

Lemma string_of_uint_nonnil d :
  d <> Decimal.Nil -> NilZero.string_of_uint d = NilEmpty.string_of_uint d.
Proof. destruct d; congruence || reflexivity. Qed.

(** The text [toString] writes is read back by [parseInt] as the same
    number. *)
Lemma parseInt_toString z : parseInt (toString z) = Some z.
Proof.
  unfold toString. destruct z as [|p|p]; [reflexivity| |].
  - cbn [Z.to_int NilZero.string_of_int].
    pose proof (DecimalPos.Unsigned.to_uint_nonnil p) as Hd.
    rewrite (string_of_uint_nonnil _ Hd).
    destruct (string_of_uint_digit_first _ Hd) as (c & r & E & Hc).
    rewrite E, (parseInt_digit_first c r Hc), <- E, read_string_of_uint by assumption.
    unfold Z.of_uint. rewrite DecimalPos.Unsigned.of_to. reflexivity.
  - cbn [Z.to_int NilZero.string_of_int].
    pose proof (DecimalPos.Unsigned.to_uint_nonnil p) as Hd.
    rewrite (string_of_uint_nonnil _ Hd).
    change (parseInt (String "-" (NilEmpty.string_of_uint (Pos.to_uint p))))
      with (match digit_prefix (NilEmpty.string_of_uint (Pos.to_uint p)) with
            | EmptyString => None
            | ds => (fun u => -1 * Z.of_uint u) <$> NilEmpty.uint_of_string ds
            end).
    rewrite read_string_of_uint by assumption.
    unfold Z.of_uint. rewrite DecimalPos.Unsigned.of_to. reflexivity.
Qed.

Lemma toString_inj a b : toString a = toString b -> a = b.
Proof.
  intros H. apply (f_equal parseInt) in H. rewrite !parseInt_toString in H.
  congruence.
Qed.

(** A count attribute that holds the decimal text of an integer holds
    that integer. *)
Lemma numeric_value_toString z : numeric_value (AV_N (toString z)) = Some z.
Proof. apply parseInt_toString. Qed.

Example parseInt_samples :
  parseInt "42" = Some 42 /\ parseInt "-3" = Some (-3) /\ parseInt "  7" = Some 7 /\
  parseInt "12.5" = Some 12 /\ parseInt "9 lives" = Some 9 /\
  parseInt "" = None /\ parseInt "abc" = None /\ parseInt "-" = None.
Proof. repeat split. Qed.

(** ** Reading the reply *)

Lemma increment_onFulfilled_run options countAttribute data t :
  callbacks_return options ->
  exists outcome : Z + any,
    increment_onFulfilled options countAttribute data Pending t =
      ((delivered options outcome).1, t ++ (delivered options outcome).2, Normal tt) /\
    match (Attributes data ≫= (fun attrs => attrs !! countAttribute)) ≫= numeric_value with
    | Some n => outcome = inl n
    | None => exists e, outcome = inr e /\ MalformedResponse e
    end.
Proof.
  intros Hret. unfold increment_onFulfilled, try_catch.
  destruct (Attributes data ≫= _) as [countValue|] eqn:Hcount; cbn.
  - destruct countValue as [s|n|b|]; cbn;
      try (eexists (inr _); split;
           [apply (failure_path options _ t Hret) | eexists; split; [reflexivity|constructor]]).
    destruct n as [|c r]; cbn.
    + eexists (inr _); split;
        [apply (failure_path options _ t Hret) | eexists; split; [reflexivity|constructor]].
    + destruct (parseInt (String c r)) as [v|] eqn:Hparse; cbn.
      * exists (inl v). split; [|reflexivity].
        rewrite (success_path options v t Hret). reflexivity.
      * eexists (inr _); split;
          [apply (failure_path options _ t Hret) | eexists; split; [reflexivity|]].
        apply IncrementedValueNotParsed.
  - eexists (inr _); split;
      [apply (failure_path options _ t Hret) | eexists; split; [reflexivity|constructor]].
Qed.

Lemma getLastValue_onFulfilled_run options countAttribute data t :
  callbacks_return options ->
  exists outcome : Z + any,
    getLastValue_onFulfilled options countAttribute data Pending t =
      ((delivered options outcome).1, t ++ (delivered options outcome).2, Normal tt) /\
    match Item data ≫= (fun item => item !! countAttribute) with
    | None => outcome = inl 0
    | Some countValue =>
        match numeric_value countValue with
        | Some n => outcome = inl n
        | None => exists e, outcome = inr e /\ MalformedResponse e
        end
    end.
Proof.
  intros Hret. unfold getLastValue_onFulfilled, try_catch.
  destruct (Item data ≫= _) as [countValue|] eqn:Hcount; cbn.
  - destruct countValue as [s|n|b|]; cbn;
      try (eexists (inr _); split;
           [apply (failure_path options _ t Hret) | eexists; split; [reflexivity|constructor]]).
    destruct n as [|c r]; cbn.
    + eexists (inr _); split;
        [apply (failure_path options _ t Hret) | eexists; split; [reflexivity|constructor]].
    + destruct (parseInt (String c r)) as [v|] eqn:Hparse; cbn.
      * exists (inl v). split; [|reflexivity].
        rewrite bind_run. cbn. rewrite (success_path options v t Hret). reflexivity.
      * eexists (inr _); split;
          [apply (failure_path options _ t Hret) | eexists; split; [reflexivity|]].
        apply CountValueNotParsed.
  - exists (inl 0). split; [|reflexivity].
    rewrite bind_run. cbn. rewrite (success_path options 0 t Hret). reflexivity.
Qed.

(** In general: on a reply that holds the number [n], a [success] callback
    that throws [e] on [n] is followed by [error] and [complete] on [e],
    and the promise is rejected with [e]. *)
Lemma success_exception_reaches_error options countAttribute data cb n e t :
  Options.success options = Some cb ->
  cb_body cb (this_of (Options.context options)) (VNum n) = Some e ->
  returns (Options.error options) ->
  returns (Options.complete options) ->
  (Attributes data ≫= (fun attrs => attrs !! countAttribute)) ≫= numeric_value = Some n ->
  increment_onFulfilled options countAttribute data Pending t =
    (Rejected e,
     t ++ fired (Options.success options) (Options.context options) (VNum n)
       ++ fired (Options.error options) (Options.context options) e
       ++ fired (Options.complete options) (Options.context options) e,
     Normal tt).
Proof.
  intros Hsuccess Hthrows Herror Hcomplete Hnumber.
  unfold increment_onFulfilled, try_catch.
  destruct (Attributes data ≫= _) as [[s|text|b|]|]; try discriminate Hnumber.
  cbn in Hnumber. cbn [N_member].
  destruct text as [|c r]; [discriminate Hnumber|]. rewrite Hnumber.
  rewrite bind_run, executeCallback_run, Hsuccess. unfold completion_of. rewrite Hthrows.
  rewrite <- Hsuccess.
  rewrite bind_run, (executeCallback_returns _ _ _ _ _ Herror).
  rewrite bind_run, (executeCallback_returns _ _ _ _ _ Hcomplete).
  cbn. rewrite <- !app_assoc. reflexivity.
Qed.

(** ** The requests *)

Example increment_default_request :
  increment_params "Users" Options.empty =
  {[ "TableName" := FString "AtomicCounters";
     "Key" := FAttributes {[ "id" := AV_S "Users" ]};
     "UpdateExpression" := FString "ADD lastValue :increment";
     "ExpressionAttributeValues" := FAttributes {[ ":increment" := AV_N "1" ]};
     "ReturnValues" := FString "UPDATED_NEW" ]}.
Proof. reflexivity. Qed.

Lemma increment_params_lookup counterId options key :
  increment_params counterId options !! key =
  match raw_fields options !! key with
  | Some v => Some v
  | None => increment_derived counterId options !! key
  end.
Proof.
  unfold increment_params, raw_fields. rewrite lookup_union.
  destruct (default ∅ (Options.dynamodb options) !! key);
    destruct (increment_derived counterId options !! key); reflexivity.
Qed.

Lemma getLastValue_params_lookup counterId options key :
  getLastValue_params counterId options !! key =
  match raw_fields options !! key with
  | Some v => Some v
  | None => getLastValue_derived counterId options !! key
  end.
Proof.
  unfold getLastValue_params, raw_fields. rewrite lookup_union.
  destruct (default ∅ (Options.dynamodb options) !! key);
    destruct (getLastValue_derived counterId options !! key); reflexivity.
Qed.


Lemma getLastValue_derived_fields counterId options :
  let keyAttribute := or_string (Options.keyAttribute options) DEFAULT_KEY_ATTRIBUTE in
  let countAttribute := or_string (Options.countAttribute options) DEFAULT_COUNT_ATTRIBUTE in
  let derived := getLastValue_derived counterId options in
  derived !! "TableName" =
    Some (FString (or_string (Options.tableName options) DEFAULT_TABLE_NAME)) /\
  derived !! "Key" = Some (FAttributes {[ keyAttribute := AV_S counterId ]}) /\
  derived !! "ProjectionExpression" = Some (FString countAttribute) /\
  dom derived = {[ "TableName"; "Key"; "ProjectionExpression" ]}.
Proof. repeat split. Qed.


(** ** The operations, step by step *)

(** A handler that ends normally is not followed by the [.catch] handler. *)
Lemma conclude_fulfilled {D} client command (data : D)
    (onFulfilled : D -> M PromiseState unit) handler p t :
  onFulfilled data Pending [] = (p, t, Normal tt) ->
  conclude client command (then_catch (Fulfilment data) onFulfilled handler) =
  {| used_client := client; sent := command; trace := t; promise := p;
     unhandled := None |}.
Proof.
  intros H. unfold conclude, then_catch, try_catch. rewrite H. reflexivity.
Qed.

Lemma conclude_rejected {D} client command e
    (onFulfilled : D -> M PromiseState unit) handler p t :
  handler e Pending [] = (p, t, Normal tt) ->
  conclude client command (then_catch (Rejection e) onFulfilled handler) =
  {| used_client := client; sent := command; trace := t; promise := p;
     unhandled := None |}.
Proof.
  intros H. unfold conclude, then_catch. rewrite H. reflexivity.
Qed.

Lemma sent_conclude client command run : sent (conclude client command run) = command.
Proof. unfold conclude. destruct (run Pending []) as [[p t] [[]|e]]; reflexivity. Qed.

Lemma used_client_conclude client command run :
  used_client (conclude client command run) = client.
Proof. unfold conclude. destruct (run Pending []) as [[p t] [[]|e]]; reflexivity. Qed.

Section OperationFacts.

Context {Store : Type}.
Variable send_UpdateItem : SendUpdateItem Store.
Variable send_GetItem : SendGetItem Store.

Lemma increment_unfold counterId options (w : World Store) :
  increment send_UpdateItem counterId options w =
  let resolved := getDynamoClient (Options.client options) (dynamoClient w) in
  let params := increment_params counterId options in
  let answer := send_UpdateItem resolved.1 params (store w) in
  ({| dynamoClient := resolved.2; store := answer.2 |},
   conclude resolved.1 (UpdateItemCommand params)
     (then_catch answer.1
        (increment_onFulfilled options
           (or_string (Options.countAttribute options) DEFAULT_COUNT_ATTRIBUTE))
        (onRejected options))).
Proof.
  unfold increment. cbv zeta.
  destruct (getDynamoClient _ _) as [client slot]. cbn [fst snd].
  destruct (send_UpdateItem _ _ _) as [reply store']. reflexivity.
Qed.

Lemma getLastValue_unfold counterId options (w : World Store) :
  getLastValue send_GetItem counterId options w =
  let resolved := getDynamoClient (Options.client options) (dynamoClient w) in
  let params := getLastValue_params counterId options in
  let answer := send_GetItem resolved.1 params (store w) in
  ({| dynamoClient := resolved.2; store := answer.2 |},
   conclude resolved.1 (GetItemCommand params)
     (then_catch answer.1
        (getLastValue_onFulfilled options
           (or_string (Options.countAttribute options) DEFAULT_COUNT_ATTRIBUTE))
        (onRejected options))).
Proof.
  unfold getLastValue. cbv zeta.
  destruct (getDynamoClient _ _) as [client slot]. cbn [fst snd].
  destruct (send_GetItem _ _ _) as [reply store']. reflexivity.
Qed.

Lemma increment_sends counterId options (w : World Store) :
  sent (increment send_UpdateItem counterId options w).2 =
  UpdateItemCommand (increment_params counterId options).
Proof. rewrite increment_unfold. apply sent_conclude. Qed.

Lemma getLastValue_sends counterId options (w : World Store) :
  sent (getLastValue send_GetItem counterId options w).2 =
  GetItemCommand (getLastValue_params counterId options).
Proof. rewrite getLastValue_unfold. apply sent_conclude. Qed.

Lemma increment_resolves_client counterId options (w : World Store) :
  let call := increment send_UpdateItem counterId options w in
  (used_client call.2, dynamoClient call.1) =
  getDynamoClient (Options.client options) (dynamoClient w).
Proof.
  rewrite increment_unfold. cbv zeta. cbn [fst snd dynamoClient].
  rewrite used_client_conclude. destruct (getDynamoClient _ _). reflexivity.
Qed.

Lemma getLastValue_resolves_client counterId options (w : World Store) :
  let call := getLastValue send_GetItem counterId options w in
  (used_client call.2, dynamoClient call.1) =
  getDynamoClient (Options.client options) (dynamoClient w).
Proof.
  rewrite getLastValue_unfold. cbv zeta. cbn [fst snd dynamoClient].
  rewrite used_client_conclude. destruct (getDynamoClient _ _). reflexivity.
Qed.

(** After [setClient], an operation called without an override uses the
    client that was set. *)
Lemma operations_use_the_set_client counterId options client (w : World Store) :
  Options.client options = None ->
  let w' := {| dynamoClient := setClient client (dynamoClient w); store := store w |} in
  used_client (increment send_UpdateItem counterId options w').2 = client /\
  used_client (getLastValue send_GetItem counterId options w').2 = client.
Proof.
  intros Hnone w'.
  pose proof (increment_resolves_client counterId options w') as Hu.
  pose proof (getLastValue_resolves_client counterId options w') as Hr.
  cbv zeta in Hu, Hr. rewrite Hnone in Hu, Hr. cbn in Hu, Hr.
  split; congruence.
Qed.

(** When the callbacks return, an [increment] hands its outcome to
    [success] and [complete], or to [error] and [complete], once each,
    whatever the store answers. *)
Lemma increment_routes_outcome counterId options (w : World Store) :
  callbacks_return options ->
  exists outcome : Z + any,
    let call := (increment send_UpdateItem counterId options w).2 in
    promise call = (delivered options outcome).1 /\
    trace call = (delivered options outcome).2 /\
    unhandled call = None.
Proof.
  intros Hret. rewrite increment_unfold. cbv zeta. cbn [snd].
  destruct (send_UpdateItem _ _ _).1 as [data|e].
  - destruct (increment_onFulfilled_run options
                (or_string (Options.countAttribute options) DEFAULT_COUNT_ATTRIBUTE)
                data [] Hret) as (outcome & Hrun & _).
    exists outcome. rewrite (conclude_fulfilled _ _ _ _ _ _ _ Hrun). auto.
  - exists (inr e).
    rewrite (conclude_rejected _ _ _ _ _ _ _ (failure_path options e [] Hret)). auto.
Qed.

Lemma getLastValue_routes_outcome counterId options (w : World Store) :
  callbacks_return options ->
  exists outcome : Z + any,
    let call := (getLastValue send_GetItem counterId options w).2 in
    promise call = (delivered options outcome).1 /\
    trace call = (delivered options outcome).2 /\
    unhandled call = None.
Proof.
  intros Hret. rewrite getLastValue_unfold. cbv zeta. cbn [snd].
  destruct (send_GetItem _ _ _).1 as [data|e].
  - destruct (getLastValue_onFulfilled_run options
                (or_string (Options.countAttribute options) DEFAULT_COUNT_ATTRIBUTE)
                data [] Hret) as (outcome & Hrun & _).
    exists outcome. rewrite (conclude_fulfilled _ _ _ _ _ _ _ Hrun). auto.
  - exists (inr e).
    rewrite (conclude_rejected _ _ _ _ _ _ _ (failure_path options e [] Hret)). auto.
Qed.

End OperationFacts.

(** ** The operations on an in-memory table *)


(** A counter that does not exist yet: two increments return 1 and 2, and
    the last value is then 2. *)
Example users_scenario :
  let first := increment MemoryTable.UpdateItem "Users" Options.empty empty_world in
  let second := increment MemoryTable.UpdateItem "Users" Options.empty first.1 in
  let last := getLastValue MemoryTable.GetItem "Users" Options.empty second.1 in
  promise first.2 = Fulfilled 1 /\
  promise second.2 = Fulfilled 2 /\
  promise last.2 = Fulfilled 2.
Proof. cbv zeta. split; [|split]; vm_compute; reflexivity. Qed.

Example never_incremented :
  promise (getLastValue MemoryTable.GetItem "Users" Options.empty empty_world).2 =
  Fulfilled 0.
Proof. vm_compute. reflexivity. Qed.

Example increment_by_five_then_back_one :
  let first := increment MemoryTable.UpdateItem "Users" (with_increment 5) empty_world in
  let last := getLastValue MemoryTable.GetItem "Users" Options.empty first.1 in
  let back := increment MemoryTable.UpdateItem "Users" (with_increment (-1)) first.1 in
  promise first.2 = Fulfilled 5 /\
  promise last.2 = Fulfilled 5 /\
  promise back.2 = Fulfilled 4.
Proof. cbv zeta. split; [|split]; vm_compute; reflexivity. Qed.

(** An amount of zero falls back to the default: the counter moves from 5
    to 6. *)
Example increment_by_zero :
  let first := increment MemoryTable.UpdateItem "Users" (with_increment 5) empty_world in
  promise (increment MemoryTable.UpdateItem "Users" (with_increment 0) first.1).2 =
  Fulfilled 6.
Proof. vm_compute. reflexivity. Qed.

(** ** The result object *)

Lemma forEach_returning {S} queue arg (s : S) t :
  all_return queue ->
  forEach queue (fun cb => call cb None arg) s t = (s, t ++ delivery queue arg, Normal tt).
Proof.
  intros Hall. revert t. induction Hall as [|cb rest Hcb _ IH]; intros t; cbn.
  - rewrite app_nil_r. reflexivity.
  - rewrite bind_run, call_run. unfold completion_of.
    rewrite Hcb, IH, <- app_assoc. reflexivity.
Qed.

(** Before settlement a registration only queues the observer. *)
Lemma registration_while_pending self cb t :
  is_pending self ->
  AtomicCounterPromiseImpl.done cb self t =
    (AtomicCounterPromiseImpl.push_done cb self, t, Normal tt) /\
  AtomicCounterPromiseImpl.fail cb self t =
    (AtomicCounterPromiseImpl.push_fail cb self, t, Normal tt) /\
  AtomicCounterPromiseImpl.always cb self t =
    (AtomicCounterPromiseImpl.push_always cb self, t, Normal tt).
Proof.
  intros [Hres Hrej].
  unfold AtomicCounterPromiseImpl.done, AtomicCounterPromiseImpl.fail,
    AtomicCounterPromiseImpl.always.
  rewrite !bind_run. cbn. rewrite Hres, Hrej. repeat split.
Qed.

(** Registering observers one after the other on a pending object queues
    them in that order and invokes none. *)
Lemma queueing_keeps_order self queue t :
  is_pending self ->
  forEach queue AtomicCounterPromiseImpl.done self t =
    (fold_left (fun s cb => AtomicCounterPromiseImpl.push_done cb s) queue self,
     t, Normal tt) /\
  forEach queue AtomicCounterPromiseImpl.fail self t =
    (fold_left (fun s cb => AtomicCounterPromiseImpl.push_fail cb s) queue self,
     t, Normal tt) /\
  forEach queue AtomicCounterPromiseImpl.always self t =
    (fold_left (fun s cb => AtomicCounterPromiseImpl.push_always cb s) queue self,
     t, Normal tt).
Proof.
  revert self. induction queue as [|cb rest IH]; intros self Hpending.
  - repeat split.
  - destruct (registration_while_pending self cb t Hpending) as (Hd & Hf & Ha).
    cbn [forEach fold_left]. rewrite !bind_run, Hd, Hf, Ha.
    repeat split; apply IH; destruct Hpending; split; assumption.
Qed.

(** With observers that return, settlement delivers to each queued
    observer of the matching kinds once, in queue order, and leaves the
    object in the matching terminal state. *)
Lemma settle_fulfilled_returning self v t :
  is_pending self ->
  all_return (AtomicCounterPromiseImpl.doneCallbacks self) ->
  all_return (AtomicCounterPromiseImpl.alwaysCallbacks self) ->
  AtomicCounterPromiseImpl.settle (Fulfilled v) self t =
    (AtomicCounterPromiseImpl.set_resolved (VNum v) self,
     t ++ delivery (AtomicCounterPromiseImpl.doneCallbacks self) (VNum v)
       ++ delivery (AtomicCounterPromiseImpl.alwaysCallbacks self) (VNum v),
     Normal tt) /\
  is_resolved (AtomicCounterPromiseImpl.set_resolved (VNum v) self) (VNum v).
Proof.
  intros [Hres Hrej] Hdone Halways. split.
  - unfold AtomicCounterPromiseImpl.settle, then_catch, try_catch,
      AtomicCounterPromiseImpl.onFulfilled.
    rewrite bind_run. cbn. rewrite bind_run. cbn.
    rewrite bind_run, (forEach_returning _ _ _ _ Hdone), (forEach_returning _ _ _ _ Halways).
    rewrite <- app_assoc. reflexivity.
  - repeat split. exact Hrej.
Qed.

Lemma settle_rejected_returning self e t :
  is_pending self ->
  all_return (AtomicCounterPromiseImpl.failCallbacks self) ->
  all_return (AtomicCounterPromiseImpl.alwaysCallbacks self) ->
  AtomicCounterPromiseImpl.settle (Rejected e) self t =
    (AtomicCounterPromiseImpl.set_rejected e self,
     t ++ delivery (AtomicCounterPromiseImpl.failCallbacks self) e
       ++ delivery (AtomicCounterPromiseImpl.alwaysCallbacks self) e,
     Normal tt) /\
  is_rejected (AtomicCounterPromiseImpl.set_rejected e self) e.
Proof.
  intros [Hres Hrej] Hfail Halways. split.
  - unfold AtomicCounterPromiseImpl.settle, then_catch,
      AtomicCounterPromiseImpl.onRejected.
    rewrite bind_run. cbn. rewrite bind_run. cbn.
    rewrite bind_run, (forEach_returning _ _ _ _ Hfail), (forEach_returning _ _ _ _ Halways).
    rewrite <- app_assoc. reflexivity.
  - repeat split. exact Hres.
Qed.

(** The object an operation returns has no observer yet: it follows the
    promise it wraps, and stays pending if that promise never settles. *)
Lemma settle_without_observers p t :
  AtomicCounterPromiseImpl.settle p AtomicCounterPromiseImpl.init t =
  (match p with
   | Pending => AtomicCounterPromiseImpl.init
   | Fulfilled v => AtomicCounterPromiseImpl.set_resolved (VNum v) AtomicCounterPromiseImpl.init
   | Rejected e => AtomicCounterPromiseImpl.set_rejected e AtomicCounterPromiseImpl.init
   end, t, Normal tt).
Proof. destruct p; reflexivity. Qed.

Example queue_then_settle :
  (forEach [returning "a"; returning "b"] AtomicCounterPromiseImpl.done ;;
   AtomicCounterPromiseImpl.always (returning "c") ;;
   AtomicCounterPromiseImpl.fail (returning "d") ;;
   AtomicCounterPromiseImpl.settle (Fulfilled 3) ;;
   AtomicCounterPromiseImpl.done (returning "e") ;;
   AtomicCounterPromiseImpl.fail (returning "f"))
    AtomicCounterPromiseImpl.init [] =
  ({| AtomicCounterPromiseImpl.doneCallbacks := [returning "a"; returning "b"];
      AtomicCounterPromiseImpl.failCallbacks := [returning "d"];
      AtomicCounterPromiseImpl.alwaysCallbacks := [returning "c"];
      AtomicCounterPromiseImpl.resolved := true;
      AtomicCounterPromiseImpl.rejected := false;
      AtomicCounterPromiseImpl.value := VNum 3 |},
   [Invoked "a" None (VNum 3); Invoked "b" None (VNum 3); Invoked "c" None (VNum 3);
    Invoked "e" None (VNum 3)],
   Normal tt).
Proof. reflexivity. Qed.

(** ** C1: increment and the count attribute of the reply *)



(** ** C2: getLastValue and the zero default *)



(** ** C3: the amount an increment adds *)




(** ** C4: the option callbacks *)

(** C4. The callbacks run inside the [try] block whose [catch] calls
    [error] and [complete]. A [success] callback that throws on a valid
    reply is therefore followed by [error] and [complete], both on the
    thrown value, and the promise is rejected; a [complete] callback that
    throws on the value is called a second time, on what it threw, after
    [error]. The same holds for [getLastValue]. *)
Theorem throwing_callback_fires_error_too :
  let bug := VObj "bug" in
  let reply := AV_N "1" in
  let first :=
    (increment (scripted_UpdateItem (updated reply)) "Users"
       (with_callbacks (throwing "success" bug) (returning "error") (returning "complete"))
       fresh_world).2 in
  let second :=
    (increment (scripted_UpdateItem (updated reply)) "Users"
       (with_callbacks (returning "success") (returning "error")
          (throwing_on_numbers "complete" bug))
       fresh_world).2 in
  let third :=
    (getLastValue (scripted_GetItem (found reply)) "Users"
       (with_callbacks (throwing "success" bug) (returning "error") (returning "complete"))
       fresh_world).2 in
  trace first =
    [Invoked "success" None (VNum 1); Invoked "error" None bug;
     Invoked "complete" None bug] /\
  promise first = Rejected bug /\
  trace second =
    [Invoked "success" None (VNum 1); Invoked "complete" None (VNum 1);
     Invoked "error" None bug; Invoked "complete" None bug] /\
  promise second = Rejected bug /\
  trace third =
    [Invoked "success" None (VNum 1); Invoked "error" None bug;
     Invoked "complete" None bug] /\
  promise third = Rejected bug.
Proof. vm_compute. repeat split. Qed.

(** ** C5: raw request fields *)

(** C5. In the request either operation sends, a field the caller supplied
    under [dynamodb] holds the caller's value, also where a derived field
    has the same name; every other field is the derived one. *)
Theorem raw_fields_replace_derived_fields {Store}
    (send_UpdateItem : SendUpdateItem Store)
    (send_GetItem : SendGetItem Store)
    (counterId : string) (options : AtomicCounterOptions) (w : World Store)
    (key : string) :
  let update := command_input (sent (increment send_UpdateItem counterId options w).2) in
  let read := command_input (sent (getLastValue send_GetItem counterId options w).2) in
  (forall v, raw_fields options !! key = Some v ->
             update !! key = Some v /\ read !! key = Some v) /\
  (raw_fields options !! key = None ->
   update !! key = increment_derived counterId options !! key /\
   read !! key = getLastValue_derived counterId options !! key).
Proof.
  cbv zeta. rewrite increment_sends, getLastValue_sends. cbn [command_input].
  rewrite increment_params_lookup, getLastValue_params_lookup.
  split; [intros v Hraw|intros Hraw]; rewrite Hraw; split; reflexivity.
Qed.

Lemma raw_fields_replace_derived_fields_witness :
  let other := FAttributes {[ "pk" := AV_S "other" ]} in
  let options := with_dynamodb {[ "Key" := other ]} in
  let update :=
    command_input
      (sent (increment (scripted_UpdateItem (updated (AV_N "1"))) "Users" options
               fresh_world).2) in
  let read :=
    command_input
      (sent (getLastValue (scripted_GetItem (found (AV_N "1"))) "Users" options
               fresh_world).2) in
  (update !! "Key" = Some other /\ read !! "Key" = Some other) /\
  (update !! "TableName" = Some (FString "AtomicCounters") /\
   read !! "TableName" = Some (FString "AtomicCounters")).
Proof.
  split.
  - exact (proj1 (raw_fields_replace_derived_fields
                    (scripted_UpdateItem (updated (AV_N "1")))
                    (scripted_GetItem (found (AV_N "1"))) "Users"
                    (with_dynamodb {[ "Key" := FAttributes {[ "pk" := AV_S "other" ]} ]})
                    fresh_world "Key")
             (FAttributes {[ "pk" := AV_S "other" ]}) eq_refl).
  - exact (proj2 (raw_fields_replace_derived_fields
                    (scripted_UpdateItem (updated (AV_N "1")))
                    (scripted_GetItem (found (AV_N "1"))) "Users"
                    (with_dynamodb {[ "Key" := FAttributes {[ "pk" := AV_S "other" ]} ]})
                    fresh_world "TableName")
             eq_refl).
Defined.

(** ** C6: settlement with an observer that throws *)

(** C6. The constructor chains [.then(...).catch(...)], so an exception of
    a queued observer during the delivery of a fulfilment runs the
    rejection handler on the same object. With two [always] observers
    queued, the second throwing, fulfilment with 5 invokes both on 5 and
    then both again on the thrown value, and leaves both flags set; with a
    throwing [done] observer and a [fail] observer queued, the [fail]
    observer is invoked although the promise was fulfilled. *)
Theorem throwing_observer_settles_twice :
  let bug := VObj "bug" in
  let a1 := returning "always1" in
  let a2 := throwing "always2" bug in
  let d := throwing "done" bug in
  let f := returning "fail" in
  (AtomicCounterPromiseImpl.always a1 ;;
   AtomicCounterPromiseImpl.always a2 ;;
   AtomicCounterPromiseImpl.settle (Fulfilled 5)) AtomicCounterPromiseImpl.init [] =
    ({| AtomicCounterPromiseImpl.doneCallbacks := [];
        AtomicCounterPromiseImpl.failCallbacks := [];
        AtomicCounterPromiseImpl.alwaysCallbacks := [a1; a2];
        AtomicCounterPromiseImpl.resolved := true;
        AtomicCounterPromiseImpl.rejected := true;
        AtomicCounterPromiseImpl.value := bug |},
     [Invoked "always1" None (VNum 5); Invoked "always2" None (VNum 5);
      Invoked "always1" None bug; Invoked "always2" None bug],
     Throw bug) /\
  (AtomicCounterPromiseImpl.done d ;;
   AtomicCounterPromiseImpl.fail f ;;
   AtomicCounterPromiseImpl.settle (Fulfilled 5)) AtomicCounterPromiseImpl.init [] =
    ({| AtomicCounterPromiseImpl.doneCallbacks := [d];
        AtomicCounterPromiseImpl.failCallbacks := [f];
        AtomicCounterPromiseImpl.alwaysCallbacks := [];
        AtomicCounterPromiseImpl.resolved := true;
        AtomicCounterPromiseImpl.rejected := true;
        AtomicCounterPromiseImpl.value := bug |},
     [Invoked "done" None (VNum 5); Invoked "fail" None bug],
     Normal tt).
Proof. split; reflexivity. Qed.

(** ** C7: registration after settlement *)



(** ** C8: the shared client *)

(** C8. A client passed for one call is the client returned, and the
    shared slot stays as it was; without one, an empty slot is filled with
    a client constructed from the empty configuration, which is returned;
    a filled slot is returned as it is. [setClient] puts its argument in
    the slot whatever the slot held, so that a later resolution without an
    override returns it; [getClient] is the resolution without an
    override. Both operations resolve their client this way. *)
Theorem client_resolution :
  (forall override slot, getDynamoClient (Some override) slot = (override, slot)) /\
  getDynamoClient None None = (new_DynamoDBClient ∅, Some (new_DynamoDBClient ∅)) /\
  (forall shared, getDynamoClient None (Some shared) = (shared, Some shared)) /\
  (forall client slot, setClient client slot = Some client) /\
  (forall client slot,
     getDynamoClient None (setClient client slot) = (client, Some client)) /\
  (forall slot, getClient slot = getDynamoClient None slot) /\
  (forall shared, getClient (Some shared) = (shared, Some shared)) /\
  getClient None = (new_DynamoDBClient ∅, Some (new_DynamoDBClient ∅)) /\
  (forall Store send_UpdateItem send_GetItem counterId options (w : World Store),
     let update := increment send_UpdateItem counterId options w in
     let read := getLastValue send_GetItem counterId options w in
     (used_client update.2, dynamoClient update.1) =
       getDynamoClient (Options.client options) (dynamoClient w) /\
     (used_client read.2, dynamoClient read.1) =
       getDynamoClient (Options.client options) (dynamoClient w)).
Proof.
  repeat split.
  - apply increment_resolves_client.
  - apply getLastValue_resolves_client.
Qed.

(** ** C9: getLastValue reads *)



(** ** C10: the counter identifier *)



(** * Further properties *)

(** ** The failure path with any callbacks *)

(** What the [.catch] handler leaves behind, whatever the callbacks do:
    both callbacks returned and the promise is rejected, or one of them
    threw and the promise is still pending. *)
Lemma onRejected_cases options e t :
  let error := fired (Options.error options) (Options.context options) e in
  let complete := fired (Options.complete options) (Options.context options) e in
  onRejected options e Pending t = (Rejected e, t ++ error ++ complete, Normal tt) \/
  (exists x, onRejected options e Pending t = (Pending, t ++ error, Throw x)) \/
  (exists x, onRejected options e Pending t = (Pending, t ++ error ++ complete, Throw x)).
Proof.
  cbv zeta. unfold onRejected.
  rewrite bind_run, executeCallback_run.
  destruct (match Options.error options with Some _ => _ | None => _ end) as [[]|x].
  - rewrite bind_run, executeCallback_run, <- app_assoc.
    destruct (match Options.complete options with Some _ => _ | None => _ end) as [[]|x].
    + left. reflexivity.
    + right. right. exists x. reflexivity.
  - right. left. exists x. reflexivity.
Qed.

Lemma onRejected_not_fulfilled options e t :
  let r := onRejected options e Pending t in
  (r.1.1 = Rejected e \/ r.1.1 = Pending) /\
  (forall x, r.2 = Throw x -> r.1.1 = Pending) /\
  r.1.2 `prefix_of`
    t ++ fired (Options.error options) (Options.context options) e
      ++ fired (Options.complete options) (Options.context options) e.
Proof.
  cbv zeta.
  destruct (onRejected_cases options e t) as [H|[[x H]|[x H]]]; rewrite H; cbn.
  - split; [auto|]. split; [discriminate|reflexivity].
  - split; [auto|]. split; [reflexivity|].
    apply prefix_app, prefix_app_r. reflexivity.
  - split; [auto|]. split; [reflexivity|reflexivity].
Qed.

Lemma trace_conclude client command run :
  trace (conclude client command run) = (run Pending []).1.2.
Proof. unfold conclude. destruct (run Pending []) as [[p t] [[]|e]]; reflexivity. Qed.

Lemma promise_conclude client command run :
  promise (conclude client command run) = (run Pending []).1.1.
Proof. unfold conclude. destruct (run Pending []) as [[p t] [[]|e]]; reflexivity. Qed.

Lemma unhandled_conclude client command run :
  unhandled (conclude client command run) =
  match (run Pending []).2 with Normal _ => None | Throw e => Some e end.
Proof. unfold conclude. destruct (run Pending []) as [[p t] [[]|e]]; reflexivity. Qed.

Section FailurePath.

Context {Store : Type}.
Variable send_UpdateItem : SendUpdateItem Store.
Variable send_GetItem : SendGetItem Store.

Lemma increment_on_rejection counterId options (w : World Store) e :
  (send_UpdateItem (getDynamoClient (Options.client options) (dynamoClient w)).1
     (increment_params counterId options) (store w)).1 = Rejection e ->
  let call := (increment send_UpdateItem counterId options w).2 in
  let r := onRejected options e Pending [] in
  promise call = r.1.1 /\ trace call = r.1.2 /\
  unhandled call = match r.2 with Normal _ => None | Throw x => Some x end.
Proof.
  intros Hreply. cbv zeta. rewrite increment_unfold. cbv zeta. cbn [snd].
  rewrite Hreply, promise_conclude, trace_conclude, unhandled_conclude.
  repeat split.
Qed.

Lemma getLastValue_on_rejection counterId options (w : World Store) e :
  (send_GetItem (getDynamoClient (Options.client options) (dynamoClient w)).1
     (getLastValue_params counterId options) (store w)).1 = Rejection e ->
  let call := (getLastValue send_GetItem counterId options w).2 in
  let r := onRejected options e Pending [] in
  promise call = r.1.1 /\ trace call = r.1.2 /\
  unhandled call = match r.2 with Normal _ => None | Throw x => Some x end.
Proof.
  intros Hreply. cbv zeta. rewrite getLastValue_unfold. cbv zeta. cbn [snd].
  rewrite Hreply, promise_conclude, trace_conclude, unhandled_conclude.
  repeat split.
Qed.

End FailurePath.

(** X1. When the store rejects the command of an [increment] or of a
    [getLastValue] and the option callbacks return, the promise is rejected
    with the store's error as it is, [error] and then [complete] are each
    called once on that same error, [success] is not called, and no
    rejection is left unhandled. *)
Theorem store_failure_is_propagated {Store}
    (send_UpdateItem : SendUpdateItem Store) (send_GetItem : SendGetItem Store)
    (counterId : string) (options : AtomicCounterOptions) (w : World Store) (e : any) :
  callbacks_return options ->
  let client := (getDynamoClient (Options.client options) (dynamoClient w)).1 in
  let reported :=
    fired (Options.error options) (Options.context options) e
      ++ fired (Options.complete options) (Options.context options) e in
  ((send_UpdateItem client (increment_params counterId options) (store w)).1
     = Rejection e ->
   let call := (increment send_UpdateItem counterId options w).2 in
   promise call = Rejected e /\ trace call = reported /\ unhandled call = None) /\
  ((send_GetItem client (getLastValue_params counterId options) (store w)).1
     = Rejection e ->
   let call := (getLastValue send_GetItem counterId options w).2 in
   promise call = Rejected e /\ trace call = reported /\ unhandled call = None).
Proof.
  intros Hret. cbv zeta.
  split; intros Hreply;
    [destruct (increment_on_rejection send_UpdateItem counterId options w e Hreply)
       as (Hp & Ht & Hu)
    |destruct (getLastValue_on_rejection send_GetItem counterId options w e Hreply)
       as (Hp & Ht & Hu)];
    rewrite Hp, Ht, Hu, (failure_path options e [] Hret); repeat split.
Qed.

Lemma store_failure_is_propagated_witness :
  let throttled := VObj "ThrottlingException" in
  let options :=
    with_callbacks (returning "success") (returning "error") (returning "complete") in
  let reported :=
    [Invoked "error" None throttled; Invoked "complete" None throttled] in
  (let call :=
     (increment (scripted_UpdateItem (Rejection throttled)) "Users" options
        fresh_world).2 in
   promise call = Rejected throttled /\ trace call = reported /\ unhandled call = None) /\
  (let call :=
     (getLastValue (scripted_GetItem (Rejection throttled)) "Users" options
        fresh_world).2 in
   promise call = Rejected throttled /\ trace call = reported /\ unhandled call = None).
Proof.
  pose proof (store_failure_is_propagated
                (scripted_UpdateItem (Rejection (VObj "ThrottlingException")))
                (scripted_GetItem (Rejection (VObj "ThrottlingException")))
                "Users"
                (with_callbacks (returning "success") (returning "error")
                   (returning "complete"))
                fresh_world (VObj "ThrottlingException")
                (with_callbacks_return "success" "error" "complete")) as H.
  cbv zeta in H. destruct H as [Hupdate Hread].
  split; [exact (Hupdate eq_refl)|exact (Hread eq_refl)].
Defined.

(** X2. When the store rejects the command, then whatever the option
    callbacks do, the promise is never fulfilled: it is rejected with the
    store's error or, if a callback threw, left pending; and the callbacks
    invoked are [error] on that error, then [complete] on it, or a prefix
    of these, so [success] is never called and nothing is called twice. *)
Theorem store_failure_never_fulfils {Store}
    (send_UpdateItem : SendUpdateItem Store) (send_GetItem : SendGetItem Store)
    (counterId : string) (options : AtomicCounterOptions) (w : World Store) (e : any) :
  let client := (getDynamoClient (Options.client options) (dynamoClient w)).1 in
  let reported :=
    fired (Options.error options) (Options.context options) e
      ++ fired (Options.complete options) (Options.context options) e in
  ((send_UpdateItem client (increment_params counterId options) (store w)).1
     = Rejection e ->
   let call := (increment send_UpdateItem counterId options w).2 in
   not_fulfilled (promise call) /\
   (promise call = Rejected e \/ promise call = Pending) /\
   trace call `prefix_of` reported) /\
  ((send_GetItem client (getLastValue_params counterId options) (store w)).1
     = Rejection e ->
   let call := (getLastValue send_GetItem counterId options w).2 in
   not_fulfilled (promise call) /\
   (promise call = Rejected e \/ promise call = Pending) /\
   trace call `prefix_of` reported).
Proof.
  cbv zeta.
  split; intros Hreply;
    [destruct (increment_on_rejection send_UpdateItem counterId options w e Hreply)
       as (Hp & Ht & _)
    |destruct (getLastValue_on_rejection send_GetItem counterId options w e Hreply)
       as (Hp & Ht & _)];
    rewrite Hp, Ht;
    destruct (onRejected_not_fulfilled options e []) as ([H|H] & _ & Hprefix);
    (split; [intros v; rewrite H; discriminate|]);
    (split; [rewrite H; auto|exact Hprefix]).
Qed.

Lemma store_failure_never_fulfils_witness :
  let down := VObj "NetworkingError" in
  let options :=
    with_callbacks (returning "success") (throwing "error" (VObj "bug"))
      (returning "complete") in
  (let call :=
     (increment (scripted_UpdateItem (Rejection down)) "Users" options fresh_world).2 in
   not_fulfilled (promise call) /\
   (promise call = Rejected down \/ promise call = Pending) /\
   trace call `prefix_of` [Invoked "error" None down; Invoked "complete" None down]) /\
  (let call :=
     (getLastValue (scripted_GetItem (Rejection down)) "Users" options fresh_world).2 in
   not_fulfilled (promise call) /\
   (promise call = Rejected down \/ promise call = Pending) /\
   trace call `prefix_of` [Invoked "error" None down; Invoked "complete" None down]).
Proof.
  pose proof (store_failure_never_fulfils
                (scripted_UpdateItem (Rejection (VObj "NetworkingError")))
                (scripted_GetItem (Rejection (VObj "NetworkingError")))
                "Users"
                (with_callbacks (returning "success") (throwing "error" (VObj "bug"))
                   (returning "complete"))
                fresh_world (VObj "NetworkingError")) as H.
  cbv zeta in H. destruct H as [Hupdate Hread].
  split; [exact (Hupdate eq_refl)|exact (Hread eq_refl)].
Defined.

(** X3. When the store rejects the command and the [error] callback throws
    on the store's error, the [.catch] handler stops there: [complete] is
    not called, [reject] is not reached, so the promise stays pending for
    ever, and what the callback threw is an unhandled rejection. *)
Theorem throwing_error_callback_leaves_promise_pending {Store}
    (send_UpdateItem : SendUpdateItem Store) (send_GetItem : SendGetItem Store)
    (counterId : string) (options : AtomicCounterOptions) (w : World Store)
    (e x : any) (cb : Callback) :
  Options.error options = Some cb ->
  cb_body cb (this_of (Options.context options)) e = Some x ->
  let client := (getDynamoClient (Options.client options) (dynamoClient w)).1 in
  let only_error := [Invoked (cb_name cb) (this_of (Options.context options)) e] in
  ((send_UpdateItem client (increment_params counterId options) (store w)).1
     = Rejection e ->
   let call := (increment send_UpdateItem counterId options w).2 in
   promise call = Pending /\ trace call = only_error /\ unhandled call = Some x) /\
  ((send_GetItem client (getLastValue_params counterId options) (store w)).1
     = Rejection e ->
   let call := (getLastValue send_GetItem counterId options w).2 in
   promise call = Pending /\ trace call = only_error /\ unhandled call = Some x).
Proof.
  intros Herror Hthrows. cbv zeta.
  assert (Hrun : onRejected options e Pending [] =
                 (Pending, [Invoked (cb_name cb) (this_of (Options.context options)) e],
                  Throw x)).
  { unfold onRejected. rewrite bind_run, executeCallback_run, Herror.
    unfold completion_of. rewrite Hthrows. reflexivity. }
  split; intros Hreply;
    [destruct (increment_on_rejection send_UpdateItem counterId options w e Hreply)
       as (Hp & Ht & Hu)
    |destruct (getLastValue_on_rejection send_GetItem counterId options w e Hreply)
       as (Hp & Ht & Hu)];
    rewrite Hp, Ht, Hu, Hrun; repeat split.
Qed.

Lemma throwing_error_callback_leaves_promise_pending_witness :
  let down := VObj "NetworkingError" in
  let options :=
    with_callbacks (returning "success") (throwing "error" (VObj "bug"))
      (returning "complete") in
  (let call :=
     (increment (scripted_UpdateItem (Rejection down)) "Users" options fresh_world).2 in
   promise call = Pending /\ trace call = [Invoked "error" None down] /\
   unhandled call = Some (VObj "bug")) /\
  (let call :=
     (getLastValue (scripted_GetItem (Rejection down)) "Users" options fresh_world).2 in
   promise call = Pending /\ trace call = [Invoked "error" None down] /\
   unhandled call = Some (VObj "bug")).
Proof.
  pose proof (throwing_error_callback_leaves_promise_pending
                (scripted_UpdateItem (Rejection (VObj "NetworkingError")))
                (scripted_GetItem (Rejection (VObj "NetworkingError")))
                "Users"
                (with_callbacks (returning "success") (throwing "error" (VObj "bug"))
                   (returning "complete"))
                fresh_world (VObj "NetworkingError") (VObj "bug")
                (throwing "error" (VObj "bug")) eq_refl eq_refl) as H.
  cbv zeta in H. destruct H as [Hupdate Hread].
  split; [exact (Hupdate eq_refl)|exact (Hread eq_refl)].
Defined.

(** ** The success path with any callbacks *)







(** ** Which callbacks are called, and on which [this] *)

Lemma confined_ret {S A} P (a : A) : confined (S := S) P (mret a).
Proof. intros s t Ht. exact Ht. Qed.

Lemma confined_throw {S A} P e : confined (S := S) (A := A) P (throw e).
Proof. intros s t Ht. exact Ht. Qed.

Lemma confined_modify {S} P (f : S -> S) : confined P (modify f).
Proof. intros s t Ht. exact Ht. Qed.

Lemma confined_bind {S A B} P (m : M S A) (k : A -> M S B) :
  confined P m -> (forall a, confined P (k a)) -> confined P (m ≫= k).
Proof.
  intros Hm Hk s t Ht. rewrite bind_run. specialize (Hm s t Ht).
  destruct (m s t) as [[s' t'] [a|e]]; [apply Hk|]; exact Hm.
Qed.

Lemma confined_try_catch {S A} P (body : M S A) handler :
  confined P body -> (forall e, confined P (handler e)) ->
  confined P (try_catch body handler).
Proof.
  intros Hbody Hhandler s t Ht. unfold try_catch. specialize (Hbody s t Ht).
  destruct (body s t) as [[s' t'] [a|e]]; [|apply Hhandler]; exact Hbody.
Qed.

Lemma confined_then_catch {S D} P (source : Settlement D)
    (onFulfilled : D -> M S unit) handler :
  (forall d, confined P (onFulfilled d)) -> (forall e, confined P (handler e)) ->
  confined P (then_catch source onFulfilled handler).
Proof.
  intros Hf Hh. destruct source; cbn; [apply confined_try_catch|]; auto.
Qed.

Lemma confined_executeCallback {S} options callback arg :
  (forall cb, callback = Some cb -> cb ∈ supplied options) ->
  confined (S := S) (from_options options)
    (executeCallback callback (Options.context options) arg).
Proof.
  intros Hin s t Ht. rewrite executeCallback_run. cbn [fst snd].
  apply Forall_app. split; [exact Ht|].
  destruct callback as [cb|]; cbn; [|constructor].
  repeat constructor. exists cb, arg. split; [apply Hin|]; reflexivity.
Qed.

Lemma success_supplied options cb :
  Options.success options = Some cb -> cb ∈ supplied options.
Proof. intros H. unfold supplied. rewrite H. cbn. set_solver. Qed.

Lemma error_supplied options cb :
  Options.error options = Some cb -> cb ∈ supplied options.
Proof. intros H. unfold supplied. rewrite H. cbn. set_solver. Qed.

Lemma complete_supplied options cb :
  Options.complete options = Some cb -> cb ∈ supplied options.
Proof. intros H. unfold supplied. rewrite H. cbn. set_solver. Qed.

Create HintDb confined.
#[local] Hint Resolve confined_ret confined_throw confined_modify confined_bind
  confined_try_catch confined_then_catch confined_executeCallback
  success_supplied error_supplied complete_supplied : confined.

Lemma confined_onRejected options e :
  confined (from_options options) (onRejected options e).
Proof. unfold onRejected, reject. auto 10 with confined. Qed.

Lemma confined_increment_onFulfilled options countAttribute data :
  confined (from_options options) (increment_onFulfilled options countAttribute data).
Proof.
  unfold increment_onFulfilled, resolve, reject.
  apply confined_try_catch; [|auto 10 with confined].
  destruct (Attributes data ≫= _) as [[s|text|b|]|]; cbn; auto with confined.
  destruct text as [|c r]; auto with confined.
  destruct (parseInt _); auto 10 with confined.
Qed.

Lemma confined_getLastValue_onFulfilled options countAttribute data :
  confined (from_options options) (getLastValue_onFulfilled options countAttribute data).
Proof.
  unfold getLastValue_onFulfilled, resolve, reject.
  apply confined_try_catch; [|auto 10 with confined].
  apply confined_bind; [|auto 10 with confined].
  destruct (Item data ≫= _) as [[s|text|b|]|]; cbn; auto with confined.
  destruct text as [|c r]; auto with confined.
  destruct (parseInt _); auto with confined.
Qed.

(** X5. Whatever the store answers and whatever the callbacks do, every
    callback an operation invokes is one of the [success], [error] and
    [complete] options it was given, and is invoked with the [context]
    option as [this] when that is truthy, with no [this] otherwise. *)
Theorem only_the_options_are_called {Store}
    (send_UpdateItem : SendUpdateItem Store) (send_GetItem : SendGetItem Store)
    (counterId : string) (options : AtomicCounterOptions) (w : World Store) :
  Forall (from_options options) (trace (increment send_UpdateItem counterId options w).2) /\
  Forall (from_options options) (trace (getLastValue send_GetItem counterId options w).2).
Proof.
  split.
  - rewrite increment_unfold. cbv zeta. cbn [snd]. rewrite trace_conclude.
    apply confined_then_catch; [..|constructor].
    + intros d. apply confined_increment_onFulfilled.
    + intros e. apply confined_onRejected.
  - rewrite getLastValue_unfold. cbv zeta. cbn [snd]. rewrite trace_conclude.
    apply confined_then_catch; [..|constructor].
    + intros d. apply confined_getLastValue_onFulfilled.
    + intros e. apply confined_onRejected.
Qed.

(** X6. When the option callbacks return, an operation ends in one of two
    ways, whatever the store answers: the promise is fulfilled with a
    number and the callbacks invoked are [success] then [complete], each
    once on that number; or the promise is rejected with an error and the
    callbacks invoked are [error] then [complete], each once on that
    error. The promise is never left pending and nothing is left
    unhandled. *)
Theorem returning_callbacks_fire_once {Store}
    (send_UpdateItem : SendUpdateItem Store) (send_GetItem : SendGetItem Store)
    (counterId : string) (options : AtomicCounterOptions) (w : World Store) :
  callbacks_return options ->
  let context := Options.context options in
  let ends (call : Invocation) :=
    ((exists v,
        promise call = Fulfilled v /\
        trace call = fired (Options.success options) context (VNum v)
                       ++ fired (Options.complete options) context (VNum v)) \/
     (exists e,
        promise call = Rejected e /\
        trace call = fired (Options.error options) context e
                       ++ fired (Options.complete options) context e)) /\
    promise call <> Pending /\ unhandled call = None in
  ends (increment send_UpdateItem counterId options w).2 /\
  ends (getLastValue send_GetItem counterId options w).2.
Proof.
  intros Hret. cbv zeta.
  split;
    [destruct (increment_routes_outcome send_UpdateItem counterId options w Hret)
       as (outcome & Hp & Ht & Hu)
    |destruct (getLastValue_routes_outcome send_GetItem counterId options w Hret)
       as (outcome & Hp & Ht & Hu)];
    cbv zeta in Hp, Ht, Hu; rewrite Hp, Ht, Hu; destruct outcome as [v|e]; cbn;
    (split; [|split; [discriminate|reflexivity]]);
    [left; exists v|right; exists e|left; exists v|right; exists e]; split; reflexivity.
Qed.

Lemma returning_callbacks_fire_once_witness :
  let options :=
    with_callbacks (returning "success") (returning "error") (returning "complete") in
  let ends (call : Invocation) :=
    ((exists v,
        promise call = Fulfilled v /\
        trace call = [Invoked "success" None (VNum v); Invoked "complete" None (VNum v)]) \/
     (exists e,
        promise call = Rejected e /\
        trace call = [Invoked "error" None e; Invoked "complete" None e])) /\
    promise call <> Pending /\ unhandled call = None in
  ends (increment (scripted_UpdateItem (updated (AV_S "seven"))) "Users" options
          fresh_world).2 /\
  ends (getLastValue (scripted_GetItem (found (AV_N "7"))) "Users" options
          fresh_world).2.
Proof.
  exact (returning_callbacks_fire_once
           (scripted_UpdateItem (updated (AV_S "seven")))
           (scripted_GetItem (found (AV_N "7"))) "Users"
           (with_callbacks (returning "success") (returning "error")
              (returning "complete"))
           fresh_world (with_callbacks_return "success" "error" "complete")).
Defined.

(** ** The result object with any observers *)






Lemma fold_push_done queue self :
  fold_left (fun s cb => AtomicCounterPromiseImpl.push_done cb s) queue self =
  {| AtomicCounterPromiseImpl.doneCallbacks :=
       AtomicCounterPromiseImpl.doneCallbacks self ++ queue;
     AtomicCounterPromiseImpl.failCallbacks := AtomicCounterPromiseImpl.failCallbacks self;
     AtomicCounterPromiseImpl.alwaysCallbacks :=
       AtomicCounterPromiseImpl.alwaysCallbacks self;
     AtomicCounterPromiseImpl.resolved := AtomicCounterPromiseImpl.resolved self;
     AtomicCounterPromiseImpl.rejected := AtomicCounterPromiseImpl.rejected self;
     AtomicCounterPromiseImpl.value := AtomicCounterPromiseImpl.value self |}.
Proof.
  revert self. induction queue as [|cb rest IH]; intros self; cbn [fold_left].
  - destruct self. cbn. rewrite app_nil_r. reflexivity.
  - rewrite IH. cbn. rewrite <- app_assoc. reflexivity.
Qed.

Lemma fold_push_fail queue self :
  fold_left (fun s cb => AtomicCounterPromiseImpl.push_fail cb s) queue self =
  {| AtomicCounterPromiseImpl.doneCallbacks := AtomicCounterPromiseImpl.doneCallbacks self;
     AtomicCounterPromiseImpl.failCallbacks :=
       AtomicCounterPromiseImpl.failCallbacks self ++ queue;
     AtomicCounterPromiseImpl.alwaysCallbacks :=
       AtomicCounterPromiseImpl.alwaysCallbacks self;
     AtomicCounterPromiseImpl.resolved := AtomicCounterPromiseImpl.resolved self;
     AtomicCounterPromiseImpl.rejected := AtomicCounterPromiseImpl.rejected self;
     AtomicCounterPromiseImpl.value := AtomicCounterPromiseImpl.value self |}.
Proof.
  revert self. induction queue as [|cb rest IH]; intros self; cbn [fold_left].
  - destruct self. cbn. rewrite app_nil_r. reflexivity.
  - rewrite IH. cbn. rewrite <- app_assoc. reflexivity.
Qed.

Lemma fold_push_always queue self :
  fold_left (fun s cb => AtomicCounterPromiseImpl.push_always cb s) queue self =
  {| AtomicCounterPromiseImpl.doneCallbacks := AtomicCounterPromiseImpl.doneCallbacks self;
     AtomicCounterPromiseImpl.failCallbacks := AtomicCounterPromiseImpl.failCallbacks self;
     AtomicCounterPromiseImpl.alwaysCallbacks :=
       AtomicCounterPromiseImpl.alwaysCallbacks self ++ queue;
     AtomicCounterPromiseImpl.resolved := AtomicCounterPromiseImpl.resolved self;
     AtomicCounterPromiseImpl.rejected := AtomicCounterPromiseImpl.rejected self;
     AtomicCounterPromiseImpl.value := AtomicCounterPromiseImpl.value self |}.
Proof.
  revert self. induction queue as [|cb rest IH]; intros self; cbn [fold_left].
  - destruct self. cbn. rewrite app_nil_r. reflexivity.
  - rewrite IH. cbn. rewrite <- app_assoc. reflexivity.
Qed.

(** Registering [dones] with [done], [fails] with [fail] and [always_] with
    [always] on a fresh object queues them and invokes nothing. *)
Lemma registration_on_a_fresh_object dones fails always_ :
  (forEach dones AtomicCounterPromiseImpl.done ;;
   forEach fails AtomicCounterPromiseImpl.fail ;;
   forEach always_ AtomicCounterPromiseImpl.always) AtomicCounterPromiseImpl.init [] =
  ({| AtomicCounterPromiseImpl.doneCallbacks := dones;
      AtomicCounterPromiseImpl.failCallbacks := fails;
      AtomicCounterPromiseImpl.alwaysCallbacks := always_;
      AtomicCounterPromiseImpl.resolved := false;
      AtomicCounterPromiseImpl.rejected := false;
      AtomicCounterPromiseImpl.value := VUndefined |}, [], Normal tt).
Proof.
  rewrite bind_run.
  rewrite (proj1 (queueing_keeps_order AtomicCounterPromiseImpl.init dones []
                    (conj eq_refl eq_refl))), fold_push_done.
  cbn [AtomicCounterPromiseImpl.init AtomicCounterPromiseImpl.doneCallbacks
         AtomicCounterPromiseImpl.failCallbacks AtomicCounterPromiseImpl.alwaysCallbacks
         AtomicCounterPromiseImpl.resolved AtomicCounterPromiseImpl.rejected
         AtomicCounterPromiseImpl.value app].
  rewrite bind_run.
  match goal with
  | |- context [forEach fails _ ?s _] =>
      rewrite (proj1 (proj2 (queueing_keeps_order s fails [] (conj eq_refl eq_refl))))
  end.
  rewrite fold_push_fail.
  cbn [AtomicCounterPromiseImpl.doneCallbacks
         AtomicCounterPromiseImpl.failCallbacks AtomicCounterPromiseImpl.alwaysCallbacks
         AtomicCounterPromiseImpl.resolved AtomicCounterPromiseImpl.rejected
         AtomicCounterPromiseImpl.value app].
  match goal with
  | |- context [forEach always_ _ ?s _] =>
      rewrite (proj2 (proj2 (queueing_keeps_order s always_ [] (conj eq_refl eq_refl))))
  end.
  rewrite fold_push_always. reflexivity.
Qed.

(** X9. Observers registered on the object an operation returns, before
    its promise settles, whose bodies return: on fulfilment with [v] the
    [done] observers and then the [always] observers are invoked, each
    once, on [v], in the order they were registered, and no [fail]
    observer is; on rejection with [e] the [fail] observers and then the
    [always] observers are invoked, each once, on [e], in registration
    order, and no [done] observer is. The object ends in the matching
    state with exactly one flag set. *)
Theorem queued_observers_are_delivered_in_order
    (dones fails always_ : list Callback) (v : Z) (e : any) :
  let registered :=
    forEach dones AtomicCounterPromiseImpl.done ;;
    forEach fails AtomicCounterPromiseImpl.fail ;;
    forEach always_ AtomicCounterPromiseImpl.always in
  (all_return dones -> all_return always_ ->
   (registered ;; AtomicCounterPromiseImpl.settle (Fulfilled v))
     AtomicCounterPromiseImpl.init [] =
   ({| AtomicCounterPromiseImpl.doneCallbacks := dones;
       AtomicCounterPromiseImpl.failCallbacks := fails;
       AtomicCounterPromiseImpl.alwaysCallbacks := always_;
       AtomicCounterPromiseImpl.resolved := true;
       AtomicCounterPromiseImpl.rejected := false;
       AtomicCounterPromiseImpl.value := VNum v |},
    delivery dones (VNum v) ++ delivery always_ (VNum v), Normal tt)) /\
  (all_return fails -> all_return always_ ->
   (registered ;; AtomicCounterPromiseImpl.settle (Rejected e))
     AtomicCounterPromiseImpl.init [] =
   ({| AtomicCounterPromiseImpl.doneCallbacks := dones;
       AtomicCounterPromiseImpl.failCallbacks := fails;
       AtomicCounterPromiseImpl.alwaysCallbacks := always_;
       AtomicCounterPromiseImpl.resolved := false;
       AtomicCounterPromiseImpl.rejected := true;
       AtomicCounterPromiseImpl.value := e |},
    delivery fails e ++ delivery always_ e, Normal tt)).
Proof.
  cbv zeta. split; intros Hfirst Halways.
  - rewrite bind_run, registration_on_a_fresh_object.
    match goal with
    | |- AtomicCounterPromiseImpl.settle _ ?s _ = _ =>
        rewrite (proj1 (settle_fulfilled_returning s v [] (conj eq_refl eq_refl)
                          Hfirst Halways))
    end.
    reflexivity.
  - rewrite bind_run, registration_on_a_fresh_object.
    match goal with
    | |- AtomicCounterPromiseImpl.settle _ ?s _ = _ =>
        rewrite (proj1 (settle_rejected_returning s e [] (conj eq_refl eq_refl)
                          Hfirst Halways))
    end.
    reflexivity.
Qed.

Lemma returning_all_return names : all_return (map returning names).
Proof. induction names; constructor; [intros; reflexivity|assumption]. Qed.

Lemma queued_observers_are_delivered_in_order_witness :
  let dones := map returning ["d1"; "d2"] in
  let fails := map returning ["f1"] in
  let always_ := map returning ["a1"] in
  let registered :=
    forEach dones AtomicCounterPromiseImpl.done ;;
    forEach fails AtomicCounterPromiseImpl.fail ;;
    forEach always_ AtomicCounterPromiseImpl.always in
  ((registered ;; AtomicCounterPromiseImpl.settle (Fulfilled 3))
     AtomicCounterPromiseImpl.init []).1.2 =
    [Invoked "d1" None (VNum 3); Invoked "d2" None (VNum 3); Invoked "a1" None (VNum 3)] /\
  ((registered ;; AtomicCounterPromiseImpl.settle (Rejected (VObj "e")))
     AtomicCounterPromiseImpl.init []).1.2 =
    [Invoked "f1" None (VObj "e"); Invoked "a1" None (VObj "e")].
Proof.
  pose proof (queued_observers_are_delivered_in_order
                (map returning ["d1"; "d2"]) (map returning ["f1"])
                (map returning ["a1"]) 3 (VObj "e")) as H.
  cbv zeta in H. destruct H as [Hfulfilled Hrejected].
  split.
  - exact (f_equal (fun r => r.1.2)
             (Hfulfilled (returning_all_return ["d1"; "d2"])
                (returning_all_return ["a1"]))).
  - exact (f_equal (fun r => r.1.2)
             (Hrejected (returning_all_return ["f1"]) (returning_all_return ["a1"]))).
Defined.

(** X10. Registration on an object that has settled, whatever the handler
    does: [always] invokes its handler at once, one time, on the stored
    value or error; [done] and [fail] invoke theirs one time on it or not
    at all; none of the three queues the handler or changes the object, so
    a settled object never invokes a handler later. *)
Theorem registration_on_a_settled_object
    (self : AtomicCounterPromiseImpl.t) (cb : Callback) (t : list Event) :
  is_settled self ->
  let now := [Invoked (cb_name cb) None (AtomicCounterPromiseImpl.value self)] in
  AtomicCounterPromiseImpl.always cb self t =
    (self, t ++ now, completion_of cb None (AtomicCounterPromiseImpl.value self)) /\
  ((AtomicCounterPromiseImpl.done cb self t).1 = (self, t ++ now) \/
   AtomicCounterPromiseImpl.done cb self t = (self, t, Normal tt)) /\
  ((AtomicCounterPromiseImpl.fail cb self t).1 = (self, t ++ now) \/
   AtomicCounterPromiseImpl.fail cb self t = (self, t, Normal tt)).
Proof.
  unfold is_settled. intros Hsettled. cbv zeta.
  unfold AtomicCounterPromiseImpl.always, AtomicCounterPromiseImpl.done,
    AtomicCounterPromiseImpl.fail.
  rewrite !bind_run. cbn. rewrite Hsettled.
  split; [apply call_run|].
  destruct (AtomicCounterPromiseImpl.resolved self),
    (AtomicCounterPromiseImpl.rejected self); try discriminate Hsettled; cbn;
    rewrite ?call_run; auto.
Qed.

Lemma registration_on_a_settled_object_witness :
  let self :=
    AtomicCounterPromiseImpl.set_rejected (VObj "e") AtomicCounterPromiseImpl.init in
  let late := throwing "late" (VObj "bug") in
  let now := [Invoked "late" None (VObj "e")] in
  AtomicCounterPromiseImpl.always late self [] = (self, [] ++ now, Throw (VObj "bug")) /\
  ((AtomicCounterPromiseImpl.done late self []).1 = (self, [] ++ now) \/
   AtomicCounterPromiseImpl.done late self [] = (self, [], Normal tt)) /\
  ((AtomicCounterPromiseImpl.fail late self []).1 = (self, [] ++ now) \/
   AtomicCounterPromiseImpl.fail late self [] = (self, [], Normal tt)).
Proof.
  exact (registration_on_a_settled_object
           (AtomicCounterPromiseImpl.set_rejected (VObj "e") AtomicCounterPromiseImpl.init)
           (throwing "late" (VObj "bug")) [] eq_refl).
Defined.

(** ** The shared client over several calls *)

Lemma getDynamoClient_without_override slot :
  exists client,
    getDynamoClient None slot = (client, Some client) /\
    (forall shared, slot = Some shared -> client = shared).
Proof.
  destruct slot as [shared|]; eexists; (split; [reflexivity|]); intros ? [=]; congruence.
Qed.

(** X11. Calls that pass no client of their own share one client: the
    first such call leaves the shared slot filled with the client it used
    (the one already there, if any), and an [increment] or a
    [getLastValue] that follows uses that same client and leaves the slot
    as it is, so the default client is constructed at most once;
    [getClient] then returns that client. *)
Theorem calls_share_one_client {Store}
    (send_UpdateItem : SendUpdateItem Store) (send_GetItem : SendGetItem Store)
    (id1 id2 : string) (options1 options2 : AtomicCounterOptions) (w : World Store) :
  Options.client options1 = None ->
  Options.client options2 = None ->
  let first := increment send_UpdateItem id1 options1 w in
  let update := increment send_UpdateItem id2 options2 first.1 in
  let read := getLastValue send_GetItem id2 options2 first.1 in
  dynamoClient first.1 = Some (used_client first.2) /\
  (forall shared, dynamoClient w = Some shared -> used_client first.2 = shared) /\
  used_client update.2 = used_client first.2 /\
  used_client read.2 = used_client first.2 /\
  dynamoClient update.1 = dynamoClient first.1 /\
  dynamoClient read.1 = dynamoClient first.1 /\
  getClient (dynamoClient first.1) = (used_client first.2, dynamoClient first.1).
Proof.
  intros Hnone1 Hnone2. cbv zeta.
  pose proof (increment_resolves_client send_UpdateItem id1 options1 w) as Hfirst.
  cbv zeta in Hfirst. rewrite Hnone1 in Hfirst.
  destruct (getDynamoClient_without_override (dynamoClient w))
    as (client & Hclient & Hshared).
  rewrite Hclient in Hfirst. injection Hfirst as Hused Hslot.
  pose proof (increment_resolves_client send_UpdateItem id2 options2
                (increment send_UpdateItem id1 options1 w).1) as Hupdate.
  pose proof (getLastValue_resolves_client send_GetItem id2 options2
                (increment send_UpdateItem id1 options1 w).1) as Hread.
  cbv zeta in Hupdate, Hread. rewrite Hnone2, Hslot in Hupdate, Hread. cbn in Hupdate, Hread.
  injection Hupdate as Hu1 Hu2. injection Hread as Hr1 Hr2.
  rewrite Hused, Hslot, Hu1, Hu2, Hr1, Hr2. repeat split. exact Hshared.
Qed.

Lemma calls_share_one_client_witness :
  let first :=
    increment (scripted_UpdateItem (updated (AV_N "1"))) "Users" Options.empty
      fresh_world in
  let update :=
    increment (scripted_UpdateItem (updated (AV_N "1"))) "Orders" (with_increment 5)
      first.1 in
  let read :=
    getLastValue (scripted_GetItem (found (AV_N "1"))) "Orders" (with_increment 5)
      first.1 in
  dynamoClient first.1 = Some (used_client first.2) /\
  (forall shared, dynamoClient fresh_world = Some shared -> used_client first.2 = shared) /\
  used_client update.2 = used_client first.2 /\
  used_client read.2 = used_client first.2 /\
  dynamoClient update.1 = dynamoClient first.1 /\
  dynamoClient read.1 = dynamoClient first.1 /\
  getClient (dynamoClient first.1) = (used_client first.2, dynamoClient first.1).
Proof.
  exact (calls_share_one_client (scripted_UpdateItem (updated (AV_N "1")))
           (scripted_GetItem (found (AV_N "1"))) "Users" "Orders"
           Options.empty (with_increment 5) fresh_world eq_refl eq_refl).
Defined.

(** ** The derived requests *)

Lemma or_string_not_empty a b : b <> "" -> or_string a b <> "".
Proof.
  intros Hb. unfold or_string. destruct a as [s|]; [|exact Hb].
  destruct (String.eqb s "") eqn:E; [exact Hb|].
  apply String.eqb_neq, E.
Qed.

Lemma or_number_not_zero a b : b <> 0 -> or_number a b <> 0.
Proof.
  intros Hb. unfold or_number. destruct a as [n|]; [|exact Hb].
  destruct (n =? 0)%Z eqn:E; [exact Hb|]. apply Z.eqb_neq, E.
Qed.

(** X12. The two operations derive their requests from the same names: for
    the same counter and options, [getLastValue] reads the table, the key
    and the attribute that [increment] updates. None of the three names is
    ever empty, since an empty option falls back to the default, and the
    amount [increment] adds is never zero. *)
Theorem derived_requests_address_the_same_item
    (counterId : string) (options : AtomicCounterOptions) :
  exists (table keyAttribute countAttribute : string) (amount : Z),
    table <> "" /\ keyAttribute <> "" /\ countAttribute <> "" /\
    amount <> 0 /\ toString amount <> "0" /\
    increment_derived counterId options =
      {[ "TableName" := FString table;
         "Key" := FAttributes {[ keyAttribute := AV_S counterId ]};
         "UpdateExpression" := FString ("ADD " ++ countAttribute ++ " :increment")%string;
         "ExpressionAttributeValues" :=
           FAttributes {[ ":increment" := AV_N (toString amount) ]};
         "ReturnValues" := FString "UPDATED_NEW" ]} /\
    getLastValue_derived counterId options =
      {[ "TableName" := FString table;
         "Key" := FAttributes {[ keyAttribute := AV_S counterId ]};
         "ProjectionExpression" := FString countAttribute ]}.
Proof.
  exists (or_string (Options.tableName options) DEFAULT_TABLE_NAME),
    (or_string (Options.keyAttribute options) DEFAULT_KEY_ATTRIBUTE),
    (or_string (Options.countAttribute options) DEFAULT_COUNT_ATTRIBUTE),
    (or_number (Options.increment options) DEFAULT_INCREMENT).
  assert (Hamount : or_number (Options.increment options) DEFAULT_INCREMENT <> 0)
    by (apply or_number_not_zero; discriminate).
  repeat split; try (apply or_string_not_empty; discriminate); try exact Hamount.
  intros H. apply Hamount, toString_inj. exact H.
Qed.

(** ** Text after the number *)









(** ** The error of a reply that cannot be used *)


